(** * araxiapatch: the fetch-and-extract pipeline of [main.go]

    A shallow embedding of [downloadFile], [updateProgressBar], [run] and
    [untarGz].  The Qt widgets are left out; what the functions do to the
    outside world (standard output, the destination file, the widgets, the
    [done] channel) is returned as a list of events.  The operating system
    is an interface ([OS]); an in-memory file system ([MemFS]) instantiates
    it for the closed examples. *)

From Stdlib Require Import ZArith QArith Qround Qabs Qpower Lqa Lia.
From Stdlib Require Import SpecFloat Ascii Sorted.
From stdpp Require Import gmap strings list.

Local Open Scope Z_scope.

(** ** Go values *)

(** [error] values that the program can meet.  [EOF] is [io.EOF]; the
    program compares against it with [==]. *)
Inductive error :=
| EOF
| ErrShortWrite
| ErrHeader
| ENOENT
| ENOTDIR
| EISDIR
| ENOSPC
| ErrNet.

#[global] Instance error_eq_dec : EqDecision error.
Proof. solve_decision. Defined.

Definition error_string (e : error) : string :=
  match e with
  | EOF => "EOF"
  | ErrShortWrite => "short write"
  | ErrHeader => "invalid header"
  | ENOENT => "no such file or directory"
  | ENOTDIR => "not a directory"
  | EISDIR => "is a directory"
  | ENOSPC => "no space left on device"
  | ErrNet => "connection reset by peer"
  end.

#[global] Instance byte_eq_dec : EqDecision Byte.byte := Byte.byte_eq_dec.

Inductive result (A : Type) :=
| Ok (a : A)
| Err (e : error).
Arguments Ok {A} a.
Arguments Err {A} e.

(** [int64] arithmetic wraps around. *)
Definition wrap64 (z : Z) : Z := (z + 2 ^ 63) mod 2 ^ 64 - 2 ^ 63.

Definition in_int64 (z : Z) : bool := (- 2 ^ 63 <=? z) && (z <? 2 ^ 63).

(** [s[lo:]] on a string: [None] is the run-time panic
    "slice bounds out of range". *)
Definition slice_from (s : string) (lo : Z) : option string :=
  if (lo <? 0) || (Z.of_nat (String.length s) <? lo) then None
  else Some (String.substring (Z.to_nat lo) (String.length s - Z.to_nat lo) s).

(** ** Floating point

    A finite [float32] or [float64] value is the rational it denotes; [None]
    stands for an infinity or a NaN.  Every operation is the exact operation
    followed by IEEE-754 rounding to nearest, ties to even, in the format's
    precision, with gradual underflow; a result of magnitude [2^emax] or more
    is not finite.  Signed zeros are not told apart. *)

Definition pow2 (e : Z) : Q := (2 ^ e)%Q.

(** Nearest integer, ties to even. *)
Definition rne (x : Q) : Z :=
  let f := Qfloor x in
  match Qcompare (x - inject_Z f) (1 # 2) with
  | Lt => f
  | Gt => f + 1
  | Eq => if Z.even f then f else f + 1
  end.

(** For [0 < x]: the [m] with [2^(m-1) <= x < 2^m]. *)
Definition mag (x : Q) : Z :=
  let k := Z.log2 (Qnum x) - Z.log2 (Zpos (Qden x)) in
  if Qle_bool (pow2 k) x then k + 1 else k.

Record format := { prec : Z; emin : Z; emax : Z }.

Definition binary32 : format := {| prec := 24; emin := -149; emax := 128 |}.
Definition binary64 : format := {| prec := 53; emin := -1074; emax := 1024 |}.

(** The exponent of the last place of [x] in the format. *)
Definition fexp (fmt : format) (x : Q) : Z :=
  Z.max (mag x - prec fmt) (emin fmt).

Definition rnd_pos (fmt : format) (x : Q) : Q :=
  let e := fexp fmt x in
  (inject_Z (rne (x / pow2 e)) * pow2 e)%Q.

Definition rnd (fmt : format) (x : Q) : Q :=
  match Qnum x with
  | Z0 => 0%Q
  | Zpos _ => rnd_pos fmt x
  | Zneg _ => (- rnd_pos fmt (- x))%Q
  end.

Definition float := option Q.

(** The magnitude of the least [int64]. *)
Definition B63 : Q := inject_Z (2 ^ 63).

Definition fl (fmt : format) (x : Q) : float :=
  let r := rnd fmt x in
  if Qle_bool (pow2 (emax fmt)) (Qabs r) then None else Some r.

(** [float32(z)], [float64(z)] *)
Definition f_of_Z (fmt : format) (z : Z) : float := fl fmt (inject_Z z).

Definition f_add (fmt : format) (a b : float) : float :=
  match a, b with
  | Some x, Some y => fl fmt (x + y)
  | _, _ => None
  end.

Definition f_mul (fmt : format) (a b : float) : float :=
  match a, b with
  | Some x, Some y => fl fmt (x * y)
  | _, _ => None
  end.

(** A finite value divided by zero is an infinity or a NaN. *)
Definition f_div (fmt : format) (a b : float) : float :=
  match a, b with
  | Some x, Some y => if Qeq_bool y 0 then None else fl fmt (x / y)
  | _, _ => None
  end.

(** [a >= b] on finite values.  A comparison with a NaN is false; the
    program only compares finite values ([time_Seconds_finite]). *)
Definition f_geb (a b : float) : bool :=
  match a, b with
  | Some x, Some y => Qle_bool y x
  | _, _ => false
  end.

(** Truncation toward zero. *)
Definition Qtrunc (q : Q) : Z :=
  if Qle_bool 0 q then Qfloor q else Qceiling q.

(** [int(f)]: Go leaves the result of converting a NaN, an infinity or a
    value outside the range of [int] (64 bits here) to the implementation;
    that is [None]. *)
Definition int_of_float (f : float) : option Z :=
  match f with
  | Some q => if in_int64 (Qtrunc q) then Some (Qtrunc q) else None
  | None => None
  end.

(** The same operations on the Standard Library's executable IEEE-754
    floats, to test the rational model against. *)
Definition SF2Q (f : spec_float) : float :=
  match f with
  | S754_zero _ => Some 0%Q
  | S754_finite s m e =>
      Some ((if s then - inject_Z (Zpos m) else inject_Z (Zpos m)) * pow2 e)%Q
  | _ => None
  end.

Definition sf_of_Z (fmt : format) (z : Z) : spec_float :=
  binary_normalize (prec fmt) (emax fmt) z 0 false.

Definition float_eqb (a b : float) : bool :=
  match a, b with
  | Some x, Some y => Qeq_bool x y
  | None, None => true
  | _, _ => false
  end.

(** ** package time *)

Definition Second : Z := 1000000000.
Definition maxDuration : Z := 2 ^ 63 - 1.
Definition minDuration : Z := - 2 ^ 63.

(** [t.Sub(u)] on two readings of the monotonic clock, in nanoseconds:
    the difference, saturated. *)
Definition time_Sub (t u : Z) : Z :=
  let d := wrap64 (t - u) in
  if (d <? 0) && (u <? t) then maxDuration
  else if (0 <? d) && (t <? u) then minDuration
  else d.

(** [d.Seconds()]: [float64(d / Second) + float64(d % Second) / 1e9]. *)
Definition time_Seconds (d : Z) : float :=
  f_add binary64 (f_of_Z binary64 (Z.quot d Second))
        (f_div binary64 (f_of_Z binary64 (Z.rem d Second)) (Some 1000000000%Q)).

(** ** The operating system and the libraries on top of it *)

(** [*os.File]: [Name()] is the name that was given to [Open] or [Create];
    the model identifies the open file by it. *)
Record File := { file_Name : string }.

(** One call of [Read] on a stream: the bytes delivered and the error
    returned with them.  A stream is the list of its reads; once the list is
    used up [Read] returns [0, io.EOF]. *)
Record read := { rd_data : list Byte.byte; rd_err : option error }.

(** [tar.Header], the two fields the program looks at. *)
Record Header := { Typeflag : ascii; Name : string }.

Definition TypeReg : ascii := "0"%char.
Definition TypeDir : ascii := "5"%char.

(** What one call of [tarReader.Next()] gives: an error, or a header
    followed by the entry's content stream.  A list used up is [io.EOF]. *)
Inductive tar_item :=
| TarErr (e : error)
| TarEntry (h : Header) (body : list read).

(** The calls the program makes on the file system, over a state [world].
    [None] in an [option error] is Go's [nil]. *)
Class OS (world : Type) := {
  (** [os.Open(name)] *)
  fs_open : string -> world -> option error;
  (** [os.Create(name)] *)
  fs_create : string -> world -> world * option error;
  (** [os.MkdirAll(path, 0755)] *)
  fs_mkdirall : string -> world -> world * option error;
  (** [f.Write(b)]: the number of bytes written and the error *)
  fs_write : File -> list Byte.byte -> world -> world * (nat * option error);
  (** [gzip.NewReader(f)] and, when it succeeds, the results of the
      successive [Next()] calls of a [tar.NewReader] on top of it *)
  gzip_NewReader : File -> world -> result (list tar_item)
}.

(** ** Progress bars *)

(** [ProgressBar] without its widgets. *)
Record ProgressBar := { order : Z; total : Z; current : Z; file : string }.

Definition set_total (b : ProgressBar) (t : Z) : ProgressBar :=
  {| order := order b; total := t; current := current b; file := file b |}.

Definition set_current (b : ProgressBar) (c : Z) : ProgressBar :=
  {| order := order b; total := total b; current := c; file := file b |}.

(** [ProgressBarWindow] without its widgets and its unused channel. *)
Record ProgressBarWindow := { bars : list ProgressBar; maxNameWidth : Z }.

Definition set_bars (p : ProgressBarWindow) (bs : list ProgressBar)
  : ProgressBarWindow :=
  {| bars := bs; maxNameWidth := maxNameWidth p |}.

Definition files : list string :=
  ["info.txt"; "AraxiaPatchv1.tar.gz"; "HDPatchv1.tar.gz"].

Definition patchSource : string :=
  "https://storage.googleapis.com/araxia-client-patches/Updatev1/".

Definition calculateMaxNameWidth (p : ProgressBarWindow) : ProgressBarWindow :=
  fold_left
    (fun p file =>
       if maxNameWidth p <? Z.of_nat (String.length file)
       then {| bars := bars p; maxNameWidth := Z.of_nat (String.length file) |}
       else p)
    files p.

Definition NewProgressBar (order : Z) (file : string) (maxNameWidth : Z)
  : ProgressBar :=
  {| order := order; total := 0; current := 0; file := file |}.

Definition initProgressBars (p : ProgressBarWindow) : ProgressBarWindow :=
  fst (fold_left
         (fun '(p, i) file =>
            (set_bars p (bars p ++ [NewProgressBar (i + 1) file (maxNameWidth p)]),
             i + 1))
         files (p, 0)).

(** [updateProgressBar]: the percentage in [float32] and the argument it
    passes to [progressBar.SetValue]. *)
Definition percent (current total : Z) : float :=
  f_mul binary32
    (f_div binary32 (f_of_Z binary32 current) (f_of_Z binary32 total))
    (Some 100%Q).

Definition updateProgressBar (current total : Z) : option Z :=
  int_of_float (percent current total).

Section Pipeline.
Context {world : Type} `{!OS world}.

Definition os_Open (name : string) (w : world) : result File :=
  match fs_open name w with
  | None => Ok {| file_Name := name |}
  | Some e => Err e
  end.

Definition os_Create (name : string) (w : world) : world * result File :=
  match fs_create name w with
  | (w', None) => (w', Ok {| file_Name := name |})
  | (w', Some e) => (w', Err e)
  end.

Definition os_MkdirAll (path : string) (w : world) : world * option error :=
  fs_mkdirall path w.

(** [io.Copy(dst, src)], its error result: every read is written out; the
    first write error, short write or read error other than [io.EOF]
    ends the copy. *)
Fixpoint io_Copy (dst : File) (src : list read) (w : world)
  : world * option error :=
  match src with
  | [] => (w, None)
  | r :: rest =>
      let nr := length (rd_data r) in
      let '(w1, ew) :=
        if (0 <? nr)%nat then
          let '(w', (nw, ew)) := fs_write dst (rd_data r) w in
          (w', match ew with
               | Some e => Some e
               | None => if (nw =? nr)%nat then None else Some ErrShortWrite
               end)
        else (w, None) in
      match ew with
      | Some e => (w1, Some e)
      | None =>
          match rd_err r with
          | Some e => (w1, if decide (e = EOF) then None else Some e)
          | None => io_Copy dst rest w1
          end
      end
  end.

(** ** [untarGz] *)

Definition unsupported_msg (h : Header) : string :=
  "Unable to untar type : " +:+ String (Typeflag h) "" +:+ " in file "
    +:+ Name h.

(** The [for] loop of [untarGz] (lines 167-196) over the entries that
    [tarReader.Next()] yields.  Returns the file system, what was printed
    and the error returned. *)
Fixpoint untarLoop (dest : string) (items : list tar_item) (w : world)
  : world * list string * option error :=
  match items with
  | [] => (w, [], None)
  | TarErr e :: rest =>
      if decide (e = EOF) then (w, [], None) else (w, [], Some e)
  | TarEntry header body :: rest =>
      if Ascii.eqb (Typeflag header) TypeDir then
        match os_MkdirAll (dest +:+ "/" +:+ Name header) w with
        | (w1, Some e) => (w1, [], Some e)
        | (w1, None) => untarLoop dest rest w1
        end
      else if Ascii.eqb (Typeflag header) TypeReg then
        match os_Create (dest +:+ "/" +:+ Name header) w with
        | (w1, Err e) => (w1, [], Some e)
        | (w1, Ok outFile) =>
            match io_Copy outFile body w1 with
            | (w2, Some e) => (w2, [], Some e)
            | (w2, None) => untarLoop dest rest w2
            end
        end
      else
        let '(w1, out, err) := untarLoop dest rest w in
        (w1, unsupported_msg header :: out, err)
  end.

(** How a call ends: it returns an error (or [nil]), or it panics. *)
Inductive outcome :=
| Return (err : option error)
| Panic (msg : string).

Definition untarGz (src dest : string) (w : world)
  : world * list string * outcome :=
  match os_Open src w with
  | Err e => (w, [], Return (Some e))
  | Ok gzipFile =>
      match slice_from (file_Name gzipFile)
              (Z.of_nat (String.length (file_Name gzipFile)) - 6) with
      | None => (w, [], Panic "slice bounds out of range")
      | Some suffix =>
          if negb (String.eqb suffix ".tar.gz") then (w, [], Return None)
          else
            match gzip_NewReader gzipFile w with
            | Err e => (w, [], Return (Some e))
            | Ok tarReader =>
                let '(w1, out, err) := untarLoop dest tarReader w in
                (w1, out, Return err)
            end
      end
  end.

(** ** [downloadFile] *)

(** One call of [resp.Body.Read(buf)]: the bytes put in [buf], the error
    returned with them, and what [time.Now()] reads when the loop body
    asks for it after this read. *)
Record chunk := { ck_data : list Byte.byte; ck_err : option error; ck_now : Z }.

(** [http.Response]: the declared length ([-1] when unknown) and the reads
    the body will deliver; a list used up is [0, io.EOF]. *)
Record Response := { ContentLength : Z; Body : list chunk }.

(** What [http.Get] answers for a URL, and what [time.Now()] reads right
    after it has returned ([start]). *)
Record fetch := { fetch_get : result Response; fetch_start : Z }.

(** What [downloadFile] and [run] do that can be seen from outside, in
    order.  [SpeedSample] is the call [updateSpeedLabel(label, speed)],
    with the clock reading and the value of the counter at the call;
    [UpdateProgressBar] is the call [updateProgressBar(bar, current,
    total)]; [DoneSend] is [done <- true]. *)
Inductive event :=
| Stdout (s : string)
| OutWrite (n : nat) (err : option error)
| SpeedSample (now current : Z) (speed : float)
| UpdateProgressBar (current total : Z)
| DoneSend
| Panicked (msg : string).

(** The local variables of the loop that change. *)
Record lstate := {
  ls_world : world;
  ls_bar : ProgressBar;
  lastTime : Z;
  lastBytes : Z
}.

(** The [if n > 0 { ... }] block of the loop body. *)
Definition onChunk (out : File) (c : chunk) (s : lstate)
  : lstate * list event :=
  let n := Z.of_nat (length (ck_data c)) in
  if 0 <? n then
    let '(w', (nw, ew)) := fs_write out (ck_data c) (ls_world s) in
    let bar' := set_current (ls_bar s) (wrap64 (current (ls_bar s) + n)) in
    let now := ck_now c in
    let elapsed := time_Seconds (time_Sub now (lastTime s)) in
    if f_geb elapsed (Some 1%Q) then
      let speed :=
        f_div binary64
          (f_of_Z binary64 (wrap64 (current bar' - lastBytes s))) elapsed in
      ({| ls_world := w'; ls_bar := bar';
          lastTime := now; lastBytes := current bar' |},
       [OutWrite nw ew; SpeedSample now (current bar') speed;
        UpdateProgressBar (current bar') (total bar')])
    else
      ({| ls_world := w'; ls_bar := bar';
          lastTime := lastTime s; lastBytes := lastBytes s |},
       [OutWrite nw ew; UpdateProgressBar (current bar') (total bar')])
  else (s, []).

(** How the [for] loop is left: by [break] or by [return]. *)
Inductive loop_exit := Break | Returned.

Fixpoint readLoop (file : string) (out : File) (body : list chunk)
    (s : lstate) : lstate * list event * loop_exit :=
  match body with
  | [] => (s, [], Break)
  | c :: rest =>
      let '(s1, evs) := onChunk out c s in
      match ck_err c with
      | Some e =>
          if decide (e = EOF) then (s1, evs, Break)
          else
            (s1,
             evs ++ [Stdout ("Error writing file: " +:+ file +:+ " "
                               +:+ error_string e)],
             Returned)
      | None =>
          let '(s2, evs2, ex) := readLoop file out rest s1 in
          (s2, evs ++ evs2, ex)
      end
  end.

(** [p.bars[i]]: [None] is the panic "index out of range". *)
Definition bar_at (p : ProgressBarWindow) (i : Z) : option ProgressBar :=
  if i <? 0 then None else bars p !! Z.to_nat i.

Definition downloadFile (net : string -> fetch) (p : ProgressBarWindow)
    (directory file : string) (order : Z) (w : world)
  : world * ProgressBarWindow * list event :=
  match os_Create (directory +:+ "/" +:+ file) w with
  | (w1, Err _) => (w1, p, [Stdout ("Error creating file: " +:+ file)])
  | (w1, Ok out) =>
      match fetch_get (net (patchSource +:+ file)) with
      | Err _ => (w1, p, [Stdout ("Error downloading file: " +:+ file)])
      | Ok resp =>
          match bar_at p (order - 1) with
          | None => (w1, p, [Panicked "index out of range"])
          | Some progressBar =>
              let s0 := {| ls_world := w1;
                           ls_bar := set_total progressBar (ContentLength resp);
                           lastTime := fetch_start (net (patchSource +:+ file));
                           lastBytes := 0 |} in
              let '(s, evs, ex) := readLoop file out (Body resp) s0 in
              (ls_world s,
               set_bars p (<[Z.to_nat (order - 1) := ls_bar s]> (bars p)),
               evs ++ match ex with
                      | Break => [DoneSend]
                      | Returned => []
                      end)
          end
      end
  end.

(** ** [run] *)

(** The [go p.downloadFile(directory, file, i+1, done)] loop.  The tasks
    share nothing but the [done] channel; they are run here one after the
    other. *)
Fixpoint spawnAll (net : string -> fetch) (directory : string)
    (fs : list string) (i : Z) (p : ProgressBarWindow) (w : world)
  : world * ProgressBarWindow * list event :=
  match fs with
  | [] => (w, p, [])
  | file :: rest =>
      let '(w1, p1, evs1) := downloadFile net p directory file (i + 1) w in
      let '(w2, p2, evs2) := spawnAll net directory rest (i + 1) p1 w1 in
      (w2, p2, evs1 ++ evs2)
  end.

Definition is_DoneSend (e : event) : bool :=
  match e with DoneSend => true | _ => false end.

(** The number of values sent on [done]. *)
Definition sent (evs : list event) : nat :=
  length (List.filter is_DoneSend evs).

(** How [run] ends: it returns, it panics, or it stays blocked in
    [<-done] because fewer values are ever sent than it waits for. *)
Inductive run_end := RunReturned | RunPanicked | RunBlocked.

(** The extraction loop at the end of [run]. *)
Fixpoint untarAll (directory : string) (fs : list string) (w : world)
  : world * list event * run_end :=
  match fs with
  | [] => (w, [], RunReturned)
  | file :: rest =>
      let '(w1, out, res) := untarGz (directory +:+ "/" +:+ file) directory w in
      let evs := Stdout ("Untarring " +:+ file) :: map Stdout out in
      match res with
      | Panic msg => (w1, evs ++ [Panicked msg], RunPanicked)
      | Return err =>
          let evs1 :=
            match err with
            | Some e =>
                evs ++ [Stdout ("Error untarring file: " +:+ file +:+ " "
                                  +:+ error_string e)]
            | None => evs
            end in
          let '(w2, evs2, r) := untarAll directory rest w1 in
          (w2, evs1 ++ evs2, r)
      end
  end.

Definition run (args : list string) (net : string -> fetch)
    (p : ProgressBarWindow) (w : world)
  : world * ProgressBarWindow * list event * run_end :=
  let directory := if (1 <? length args)%nat then nth 1 args "." else "." in
  let '(w1, p1, evs) := spawnAll net directory files 0 p w in
  if (sent evs <? length files)%nat then (w1, p1, evs, RunBlocked)
  else
    let '(w2, evs2, r) := untarAll directory files w1 in
    (w2, p1, evs ++ evs2, r).
End Pipeline.

(** ** An in-memory file system

    A tree of directories and regular files addressed by the components of
    the path, a number of free bytes, and a table that says which file
    contents are gzip-compressed tar archives and what they hold.  Paths are
    taken relative to one root; [.] and empty components are dropped. *)
Module MemFS.
Inductive node :=
| Dir
| Reg (content : list Byte.byte).

Record fs := {
  nodes : gmap (list string) node;
  free : nat;
  archives : list (list Byte.byte * list tar_item)
}.

Fixpoint split_path (s acc : string) : list string :=
  match s with
  | EmptyString => [acc]
  | String c s' =>
      if Ascii.eqb c "/" then acc :: split_path s' ""
      else split_path s' (acc +:+ String c "")
  end.

Definition components (path : string) : list string :=
  filter (fun c => c ≠ "" ∧ c ≠ ".") (split_path path "").

Definition lookup_path (w : fs) (p : list string) : option node :=
  match p with
  | [] => Some Dir
  | _ => nodes w !! p
  end.

Definition open (name : string) (w : fs) : option error :=
  if decide (name = "") then Some ENOENT
  else
    match lookup_path w (components name) with
    | Some _ => None
    | None => Some ENOENT
    end.

Definition create (name : string) (w : fs) : fs * option error :=
  let p := components name in
  match lookup_path w (removelast p) with
  | None => (w, Some ENOENT)
  | Some (Reg _) => (w, Some ENOTDIR)
  | Some Dir =>
      match lookup_path w p with
      | Some Dir => (w, Some EISDIR)
      | Some (Reg old) =>
          ({| nodes := <[p := Reg []]> (nodes w);
              free := free w + length old;
              archives := archives w |}, None)
      | None =>
          ({| nodes := <[p := Reg []]> (nodes w);
              free := free w;
              archives := archives w |}, None)
      end
  end.

Fixpoint mkdirs (done todo : list string) (m : gmap (list string) node)
  : gmap (list string) node * option error :=
  match todo with
  | [] => (m, None)
  | c :: rest =>
      match m !! (done ++ [c]) with
      | Some Dir => mkdirs (done ++ [c]) rest m
      | Some (Reg _) => (m, Some ENOTDIR)
      | None => mkdirs (done ++ [c]) rest (<[done ++ [c] := Dir]> m)
      end
  end.

Definition mkdirall (path : string) (w : fs) : fs * option error :=
  let '(m, err) := mkdirs [] (components path) (nodes w) in
  ({| nodes := m; free := free w; archives := archives w |}, err).

(** Appends as much of [data] as there is room for. *)
Definition write (f : File) (data : list Byte.byte) (w : fs)
  : fs * (nat * option error) :=
  let p := components (file_Name f) in
  match nodes w !! p with
  | Some (Reg old) =>
      let k := Nat.min (length data) (free w) in
      ({| nodes := <[p := Reg (old ++ take k data)]> (nodes w);
          free := free w - k;
          archives := archives w |},
       (k, if (k <? length data)%nat then Some ENOSPC else None))
  | _ => (w, (0%nat, Some ENOENT))
  end.

Fixpoint assoc (k : list Byte.byte)
    (l : list (list Byte.byte * list tar_item)) : option (list tar_item) :=
  match l with
  | [] => None
  | (k', v) :: rest => if decide (k = k') then Some v else assoc k rest
  end.

Definition gunzip (f : File) (w : fs) : result (list tar_item) :=
  match nodes w !! components (file_Name f) with
  | Some (Reg content) =>
      match assoc content (archives w) with
      | Some items => Ok items
      | None => Err ErrHeader
      end
  | _ => Err EISDIR
  end.

#[global] Instance os : OS fs := {|
  fs_open := open;
  fs_create := create;
  fs_mkdirall := mkdirall;
  fs_write := write;
  gzip_NewReader := gunzip
|}.

Definition bytes (s : string) : list Byte.byte := String.list_byte_of_string s.
End MemFS.

(** ** Reading a trace *)

(** The calls of [updateProgressBar], as pairs [(current, total)]. *)
Definition progress_calls (evs : list event) : list (Z * Z) :=
  flat_map
    (fun e => match e with UpdateProgressBar c t => [(c, t)] | _ => [] end)
    evs.

(** The speed samples: clock reading, counter, speed. *)
Definition samples (evs : list event) : list (Z * Z * float) :=
  flat_map
    (fun e => match e with SpeedSample now c v => [(now, c, v)] | _ => [] end)
    evs.

(** The number of bytes that the [Write] calls report as written. *)
Definition written (evs : list event) : Z :=
  fold_right
    (fun e acc => match e with OutWrite n _ => Z.of_nat n + acc | _ => acc end)
    0 evs.

(** The speed that a sample taken at clock reading [t], with the counter at
    [c], shows when the previous sample (or the start of the transfer) was
    at [t0] with the counter at [c0]. *)
Definition speed_since (t0 c0 t c : Z) : float :=
  f_div binary64 (f_of_Z binary64 (wrap64 (c - c0)))
        (time_Seconds (time_Sub t t0)).

(** Every sample comes a second or more after the one before it and shows
    the speed since then. *)
Fixpoint samples_ok (t0 c0 : Z) (l : list (Z * Z * float)) : Prop :=
  match l with
  | [] => True
  | (t, c, v) :: rest =>
      Second <= time_Sub t t0 /\ v = speed_since t0 c0 t c /\ samples_ok t c rest
  end.

(** The values the counter takes after each non-empty read, up to the read
    that ends the loop. *)
Fixpoint counters (cur : Z) (body : list chunk) : list Z :=
  match body with
  | [] => []
  | c :: rest =>
      let n := Z.of_nat (length (ck_data c)) in
      let cur' := if 0 <? n then wrap64 (cur + n) else cur in
      (if 0 <? n then [cur'] else []) ++
      match ck_err c with
      | Some _ => []
      | None => counters cur' rest
      end
  end.

Definition body_bytes (body : list chunk) : Z :=
  Z.of_nat (length (concat (map ck_data body))).

(** One update reports no more than a later one: both percentages are
    finite and in order, and so are the arguments of [SetValue] when both
    conversions to [int] are defined. *)
Definition progress_le (a b : Z * Z) : Prop :=
  (exists x y, percent a.1 a.2 = Some x /\ percent b.1 b.2 = Some y /\ (x <= y)%Q) /\
  (forall u v, updateProgressBar a.1 a.2 = Some u ->
               updateProgressBar b.1 b.2 = Some v -> u <= v).

(** ** The same arithmetic on the Standard Library's IEEE-754 floats *)

Definition sf_percent (c t : Z) : spec_float :=
  SFmul 24 128 (SFdiv 24 128 (sf_of_Z binary32 c) (sf_of_Z binary32 t))
        (sf_of_Z binary32 100).

Definition sf_Seconds (d : Z) : spec_float :=
  SFadd 53 1024 (sf_of_Z binary64 (Z.quot d Second))
        (SFdiv 53 1024 (sf_of_Z binary64 (Z.rem d Second))
               (sf_of_Z binary64 1000000000)).

(** ** Concrete inputs *)

Definition window0 : ProgressBarWindow :=
  initProgressBars (calculateMaxNameWidth {| bars := []; maxNameWidth := 0 |}).

Definition example_entries : list tar_item :=
  [TarEntry {| Typeflag := TypeDir; Name := "a/" |} [];
   TarEntry {| Typeflag := TypeReg; Name := "a/b.txt" |}
            [{| rd_data := MemFS.bytes "hello"; rd_err := None |}]].

(** A directory [D] that holds a downloaded archive with the two entries
    above, and a file [a.txt] next to it. *)
Definition disk : MemFS.fs :=
  {| MemFS.nodes :=
       {[ ["D"] := MemFS.Dir;
          ["D"; "AraxiaPatchv1.tar.gz"] := MemFS.Reg (MemFS.bytes "gzip");
          ["a.txt"] := MemFS.Reg (MemFS.bytes "text") ]};
     MemFS.free := 1000;
     MemFS.archives := [(MemFS.bytes "gzip", example_entries)] |}.

(** The same directory with room for three more bytes only. *)
Definition full_disk : MemFS.fs :=
  {| MemFS.nodes := {[ ["D"] := MemFS.Dir ]};
     MemFS.free := 3;
     MemFS.archives := [] |}.

Definition hello_world (len : Z) : fetch :=
  {| fetch_get :=
       Ok {| ContentLength := len;
             Body := [{| ck_data := MemFS.bytes "hello"; ck_err := None;
                         ck_now := 1500000000 |};
                      {| ck_data := MemFS.bytes "world"; ck_err := None;
                         ck_now := 1600000000 |};
                      {| ck_data := MemFS.bytes "!"; ck_err := Some EOF;
                         ck_now := 2700000000 |}] |};
     fetch_start := 0 |}.

(** Every URL answers with eleven bytes and declares [len]. *)
Definition net_all (len : Z) : string -> fetch := fun _ => hello_world len.

(** The same, but the GET of [info.txt] fails. *)
Definition net_flaky : string -> fetch :=
  fun url =>
    if String.eqb url (patchSource +:+ "info.txt")
    then {| fetch_get := Err ErrNet; fetch_start := 0 |}
    else hello_world 11.

(** Every URL answers with five bytes and then the connection breaks. *)
Definition net_reset : string -> fetch :=
  fun _ =>
    {| fetch_get :=
         Ok {| ContentLength := 11;
               Body := [{| ck_data := MemFS.bytes "hello"; ck_err := None;
                           ck_now := 100000000 |};
                        {| ck_data := []; ck_err := Some ErrNet;
                           ck_now := 200000000 |}] |};
       fetch_start := 0 |}.

Definition link_entry : tar_item :=
  TarEntry {| Typeflag := "2"%char; Name := "a/link" |} [].

(** ** More readings of a run *)

(** The error that ends the read loop by [return]: the first error of the
    body that is not [io.EOF], unless the loop has ended before. *)
Fixpoint read_error (body : list chunk) : option error :=
  match body with
  | [] => None
  | c :: rest =>
      match ck_err c with
      | Some e => if decide (e = EOF) then None else Some e
      | None => read_error rest
      end
  end.

(** The number of bytes the read loop takes from the body. *)
Fixpoint read_bytes (body : list chunk) : Z :=
  match body with
  | [] => 0
  | c :: rest =>
      Z.of_nat (length (ck_data c)) +
      match ck_err c with
      | Some _ => 0
      | None => read_bytes rest
      end
  end.

(** The results of the [Write] calls. *)
Definition writes (evs : list event) : list (nat * option error) :=
  flat_map
    (fun e => match e with OutWrite n err => [(n, err)] | _ => [] end) evs.

(** What Go asks of a [Write]: never more than the bytes given, and all of
    them unless an error is returned. *)
Definition write_contract {world : Type} `{!OS world} : Prop :=
  forall f data (w : world),
    ((fs_write f data w).2.1 <= length data)%nat /\
    ((fs_write f data w).2.2 = None -> (fs_write f data w).2.1 = length data).

Definition is_Panicked (e : event) : bool :=
  match e with Panicked _ => true | _ => false end.

(** The clock readings at which a speed sample is due: a non-empty read
    that comes a second or more after the previous sample (after [last]). *)
Fixpoint sample_points (last : Z) (body : list chunk) : list Z :=
  match body with
  | [] => []
  | c :: rest =>
      let due := (0 <? Z.of_nat (length (ck_data c)))
                 && (Second <=? time_Sub (ck_now c) last) in
      (if due then [ck_now c] else []) ++
      match ck_err c with
      | Some _ => []
      | None => sample_points (if due then ck_now c else last) rest
      end
  end.

(** Every speed is finite, positive and at most the number of bytes
    counted since the previous sample (since [c0] for the first one). *)
Fixpoint speeds_bounded (c0 : Z) (l : list (Z * Z * float)) : Prop :=
  match l with
  | [] => True
  | (t, c, v) :: rest =>
      (exists q x, v = Some q /\ f_of_Z binary64 (c - c0) = Some x /\
                   (0 < q)%Q /\ (q <= x)%Q) /\
      speeds_bounded c rest
  end.

(** What the extraction loop at the end of [run] prints for one file: the
    announcement, and the error when the file cannot be opened. *)
Definition untar_report {world : Type} `{!OS world} (directory : string)
    (w : world) (file : string) : list event :=
  Stdout ("Untarring " +:+ file) ::
  match fs_open (directory +:+ "/" +:+ file) w with
  | Some e => [Stdout ("Error untarring file: " +:+ file +:+ " "
                         +:+ error_string e)]
  | None => []
  end.

(** An entry that is neither a directory nor a regular file. *)
Definition unsupported (i : tar_item) : bool :=
  match i with
  | TarErr _ => false
  | TarEntry h _ =>
      negb (Ascii.eqb (Typeflag h) TypeDir)
      && negb (Ascii.eqb (Typeflag h) TypeReg)
  end.

Definition item_msg (i : tar_item) : list string :=
  match i with
  | TarErr _ => []
  | TarEntry h _ => [unsupported_msg h]
  end.

(** * Properties *)

(** Closes an inequality between closed rationals by evaluation. *)
Ltac qcompute := apply Qle_bool_iff; vm_compute; reflexivity.

(** ** Rounding is monotone *)

Local Open Scope Q_scope.

Lemma rne_cases x : (rne x = Qfloor x \/ rne x = Qfloor x + 1)%Z.
Proof.
  unfold rne. destruct (Qcompare _ _); [destruct (Z.even _)|..]; auto.
Qed.

Lemma rne_mono x y : x <= y -> (rne x <= rne y)%Z.
Proof.
  intros Hxy.
  pose proof (Qfloor_resp_le _ _ Hxy) as Hf.
  destruct (Z.eq_dec (Qfloor x) (Qfloor y)) as [E|N].
  - unfold rne. rewrite <- E.
    destruct (Qcompare_spec (x - inject_Z (Qfloor x)) (1#2)) as [H1|H1|H1];
    destruct (Qcompare_spec (y - inject_Z (Qfloor x)) (1#2)) as [H2|H2|H2];
    try destruct (Z.even (Qfloor x)); try lia; exfalso; lra.
  - destruct (rne_cases x), (rne_cases y); lia.
Qed.

Lemma rne_Z n : rne (inject_Z n) = n.
Proof.
  unfold rne. rewrite Qfloor_Z.
  destruct (Qcompare_spec (inject_Z n - inject_Z n) (1#2)) as [H|H|H];
    try reflexivity; exfalso; lra.
Qed.

Lemma rne_le_Z x n : x <= inject_Z n -> (rne x <= n)%Z.
Proof. intros H. rewrite <- (rne_Z n). apply rne_mono. assumption. Qed.

Lemma rne_ge_Z x n : inject_Z n <= x -> (n <= rne x)%Z.
Proof. intros H. rewrite <- (rne_Z n). apply rne_mono. assumption. Qed.

Lemma pow2_pos e : 0 < pow2 e.
Proof. apply Qpower_0_lt. reflexivity. Qed.

Lemma pow2_add a b : pow2 (a + b) == pow2 a * pow2 b.
Proof. apply Qpower_plus. discriminate. Qed.

Lemma pow2_le a b : (a <= b)%Z -> pow2 a <= pow2 b.
Proof. intros. apply Qpower_le_compat_l; [assumption | discriminate]. Qed.

Lemma pow2_inject a : (0 <= a)%Z -> inject_Z (2 ^ a) == pow2 a.
Proof. intros. apply Zpower_Qpower. assumption. Qed.

Lemma Qpos_num x : 0 < x -> (0 < Qnum x)%Z.
Proof. destruct x as [n d]. unfold Qlt. simpl. lia. Qed.

Lemma Qdiv_le_mono a b c : 0 < c -> a <= b -> a / c <= b / c.
Proof.
  intros Hc Hab. unfold Qdiv. apply Qmult_le_compat_r; [assumption|].
  apply Qinv_le_0_compat. lra.
Qed.

(** A positive rational lies within a factor two of the quotient of the
    leading powers of two of its numerator and denominator. *)
Lemma mag_bracket x :
  0 < x ->
  let k := (Z.log2 (Qnum x) - Z.log2 (Zpos (Qden x)))%Z in
  pow2 (k - 1) < x /\ x < pow2 (k + 1).
Proof.
  intros Hx k.
  pose proof (Qpos_num x Hx) as Hn.
  destruct (Z.log2_spec (Qnum x) Hn) as [Ha1 Ha2].
  destruct (Z.log2_spec (Zpos (Qden x)) (Pos2Z.is_pos _)) as [Hb1 Hb2].
  pose proof (Z.log2_nonneg (Qnum x)) as Ha0.
  pose proof (Z.log2_nonneg (Zpos (Qden x))) as Hb0.
  set (a := Z.log2 (Qnum x)) in *. set (b := Z.log2 (Zpos (Qden x))) in *.
  assert (HX : x * inject_Z (Zpos (Qden x)) == inject_Z (Qnum x)).
  { destruct x as [n d]. simpl. unfold Qeq, Qmult. simpl. lia. }
  assert (HD : 0 < inject_Z (Zpos (Qden x))) by (unfold Qlt; simpl; lia).
  assert (A1 : pow2 a <= inject_Z (Qnum x)).
  { rewrite <- pow2_inject by assumption. rewrite <- Zle_Qle. assumption. }
  assert (A2 : inject_Z (Qnum x) < pow2 (a + 1)).
  { rewrite <- pow2_inject by lia. rewrite <- Zlt_Qlt.
    rewrite <- Z.add_1_r in Ha2. assumption. }
  assert (B1 : pow2 b <= inject_Z (Zpos (Qden x))).
  { rewrite <- pow2_inject by assumption. rewrite <- Zle_Qle. assumption. }
  assert (B2 : inject_Z (Zpos (Qden x)) < pow2 (b + 1)).
  { rewrite <- pow2_inject by lia. rewrite <- Zlt_Qlt.
    rewrite <- Z.add_1_r in Hb2. assumption. }
  assert (E1 : pow2 a == pow2 (k - 1) * pow2 (b + 1)).
  { rewrite <- pow2_add.
    replace (k - 1 + (b + 1))%Z with a by (unfold k; lia). reflexivity. }
  assert (E2 : pow2 (a + 1) == pow2 (k + 1) * pow2 b).
  { rewrite <- pow2_add.
    replace (k + 1 + b)%Z with (a + 1)%Z by (unfold k; lia). reflexivity. }
  pose proof (pow2_pos (k - 1)). pose proof (pow2_pos (k + 1)).
  pose proof (pow2_pos b). pose proof (pow2_pos (b + 1)).
  set (D := inject_Z (Zpos (Qden x))) in *.
  set (N := inject_Z (Qnum x)) in *.
  set (P1 := pow2 (k - 1)) in *. set (P2 := pow2 (k + 1)) in *.
  set (Pb := pow2 b) in *. set (Pb1 := pow2 (b + 1)) in *.
  set (Pa := pow2 a) in *. set (Pa1 := pow2 (a + 1)) in *.
  clearbody D N P1 P2 Pb Pb1 Pa Pa1.
  split.
  - apply Qnot_le_lt. intros C.
    assert (x * D <= P1 * D) by nra.
    assert (P1 * D < P1 * Pb1) by nra.
    lra.
  - apply Qnot_le_lt. intros C.
    assert (P2 * D <= x * D) by nra.
    assert (P2 * Pb <= P2 * D) by nra.
    lra.
Qed.

Lemma mag_spec x : 0 < x -> pow2 (mag x - 1) <= x /\ x < pow2 (mag x).
Proof.
  intros Hx. destruct (mag_bracket x Hx) as [H1 H2].
  unfold mag.
  destruct (Qle_bool _ x) eqn:E.
  - apply Qle_bool_iff in E. split; [|assumption].
    replace (_ + 1 - 1)%Z
      with (Z.log2 (Qnum x) - Z.log2 (Z.pos (Qden x)))%Z by lia.
    assumption.
  - split; [apply Qlt_le_weak; assumption|].
    apply Qnot_le_lt. intros C. apply Qle_bool_iff in C. congruence.
Qed.

Lemma mag_mono x y : 0 < x -> x <= y -> (mag x <= mag y)%Z.
Proof.
  intros Hx Hxy.
  destruct (mag_spec x Hx) as [H1 _].
  destruct (mag_spec y) as [_ H2]; [lra|].
  destruct (Z_le_gt_dec (mag x) (mag y)) as [L|G]; [assumption|exfalso].
  assert (pow2 (mag y) <= pow2 (mag x - 1)) by (apply pow2_le; lia).
  lra.
Qed.

Section Rounding.
Variable fmt : format.
Hypothesis prec_pos : (1 <= prec fmt)%Z.

Lemma rnd_pos_upper x :
  0 < x -> rnd_pos fmt x <= pow2 (fexp fmt x + prec fmt).
Proof using prec_pos.
  intros Hx. unfold rnd_pos. set (e := fexp fmt x).
  destruct (mag_spec x Hx) as [_ Hm].
  assert (He : (mag x <= e + prec fmt)%Z) by (unfold e, fexp; lia).
  assert (Hq : x / pow2 e <= inject_Z (2 ^ prec fmt)).
  { rewrite pow2_inject by lia.
    apply Qle_shift_div_r; [apply pow2_pos|].
    rewrite <- pow2_add, Z.add_comm.
    pose proof (pow2_le _ _ He). lra. }
  apply rne_le_Z in Hq. rewrite Zle_Qle in Hq.
  rewrite pow2_inject in Hq by lia.
  rewrite Z.add_comm, pow2_add.
  apply Qmult_le_compat_r; [assumption|]. apply Qlt_le_weak, pow2_pos.
Qed.

Lemma rnd_pos_lower x :
  0 < x -> (emin fmt < mag x - prec fmt)%Z ->
  pow2 (mag x - 1) <= rnd_pos fmt x.
Proof using prec_pos.
  intros Hx Hn. unfold rnd_pos, fexp.
  replace (Z.max _ _) with (mag x - prec fmt)%Z by lia.
  set (e := (mag x - prec fmt)%Z).
  destruct (mag_spec x Hx) as [Hm _].
  assert (Hq : inject_Z (2 ^ (prec fmt - 1)) <= x / pow2 e).
  { rewrite pow2_inject by lia.
    apply Qle_shift_div_l; [apply pow2_pos|].
    rewrite <- pow2_add.
    replace (prec fmt - 1 + e)%Z with (mag x - 1)%Z by (unfold e; lia).
    assumption. }
  apply rne_ge_Z in Hq. rewrite Zle_Qle in Hq.
  rewrite pow2_inject in Hq by lia.
  replace (mag x - 1)%Z with (prec fmt - 1 + e)%Z by (unfold e; lia).
  rewrite pow2_add.
  apply Qmult_le_compat_r; [assumption|]. apply Qlt_le_weak, pow2_pos.
Qed.

Lemma rnd_pos_mono x y : 0 < x -> x <= y -> rnd_pos fmt x <= rnd_pos fmt y.
Proof using prec_pos.
  intros Hx Hxy.
  assert (Hy : 0 < y) by lra.
  pose proof (mag_mono x y Hx Hxy) as Hm.
  destruct (Z.eq_dec (fexp fmt x) (fexp fmt y)) as [E|N].
  - unfold rnd_pos. rewrite E.
    apply Qmult_le_compat_r; [|apply Qlt_le_weak, pow2_pos].
    rewrite <- Zle_Qle.
    apply rne_mono, Qdiv_le_mono; [apply pow2_pos|assumption].
  - assert (Hlt : (fexp fmt x < fexp fmt y)%Z) by (unfold fexp in *; lia).
    assert (Hn : (emin fmt < mag y - prec fmt)%Z) by (unfold fexp in *; lia).
    pose proof (rnd_pos_upper x Hx) as U.
    pose proof (rnd_pos_lower y Hy Hn) as L.
    assert (pow2 (fexp fmt x + prec fmt) <= pow2 (mag y - 1))
      by (apply pow2_le; unfold fexp in *; lia).
    lra.
Qed.

Lemma rnd_pos_nonneg x : 0 < x -> 0 <= rnd_pos fmt x.
Proof using Type.
  intros Hx. unfold rnd_pos.
  apply Qmult_le_0_compat; [|apply Qlt_le_weak, pow2_pos].
  replace 0 with (inject_Z 0) by reflexivity. rewrite <- Zle_Qle.
  apply rne_ge_Z.
  apply Qle_shift_div_l; [apply pow2_pos|].
  change (inject_Z 0) with 0. lra.
Qed.

(** Rounding to nearest preserves the order. *)
Lemma rnd_mono x y : x <= y -> rnd fmt x <= rnd fmt y.
Proof using prec_pos.
  intros Hxy. unfold rnd.
  destruct x as [nx dx], y as [ny dy]. simpl.
  destruct nx as [|px|px], ny as [|py|py];
    try (exfalso; unfold Qle in Hxy; simpl in Hxy; lia).
  - lra.
  - apply rnd_pos_nonneg. reflexivity.
  - apply rnd_pos_mono; [reflexivity|assumption].
  - pose proof (rnd_pos_nonneg (- (Z.neg px # dx)) eq_refl). lra.
  - pose proof (rnd_pos_nonneg (- (Z.neg px # dx)) eq_refl).
    pose proof (rnd_pos_nonneg (Z.pos py # dy) eq_refl). lra.
  - assert (rnd_pos fmt (- (Z.neg py # dy)) <= rnd_pos fmt (- (Z.neg px # dx))).
    { apply rnd_pos_mono; [reflexivity|]. lra. }
    lra.
Qed.
End Rounding.

(** ** Finite ranges *)

Lemma prec32 : (1 <= prec binary32)%Z.
Proof. simpl. lia. Qed.

Lemma prec64 : (1 <= prec binary64)%Z.
Proof. simpl. lia. Qed.

Lemma fl_bounded fmt x B :
  - B <= rnd fmt x -> rnd fmt x <= B -> B < pow2 (emax fmt) ->
  fl fmt x = Some (rnd fmt x).
Proof.
  intros H1 H2 HB. unfold fl.
  destruct (Qle_bool _ _) eqn:E; [|reflexivity].
  apply Qle_bool_iff in E.
  assert (Qabs (rnd fmt x) <= B) by (apply Qabs_Qle_condition; split; assumption).
  exfalso. lra.
Qed.

Lemma B63_lt_emax32 : 100 * B63 < pow2 (emax binary32).
Proof. vm_compute. reflexivity. Qed.

Lemma rnd32_range x :
  - B63 <= x -> x <= B63 -> - B63 <= rnd binary32 x /\ rnd binary32 x <= B63.
Proof.
  intros H1 H2. split.
  - apply Qle_trans with (rnd binary32 (- B63)); [qcompute|].
    apply rnd_mono; [apply prec32|assumption].
  - apply Qle_trans with (rnd binary32 B63); [|qcompute].
    apply rnd_mono; [apply prec32|assumption].
Qed.

Lemma inject_Z_B63 z : (- 2 ^ 63 <= z)%Z -> (z <= 2 ^ 63)%Z ->
  - B63 <= inject_Z z /\ inject_Z z <= B63.
Proof.
  intros H1 H2. unfold B63. split.
  - rewrite <- inject_Z_opp. rewrite <- Zle_Qle. assumption.
  - rewrite <- Zle_Qle. assumption.
Qed.

(** [float32(z)] of an [int64] is finite. *)
Lemma f32_of_Z_finite z :
  (- 2 ^ 63 <= z)%Z -> (z <= 2 ^ 63)%Z ->
  f_of_Z binary32 z = Some (rnd binary32 (inject_Z z)).
Proof.
  intros H1 H2. destruct (inject_Z_B63 z H1 H2) as [A B].
  destruct (rnd32_range _ A B).
  apply fl_bounded with (B := B63); try assumption.
  pose proof B63_lt_emax32. unfold B63 in *. 
  assert (0 <= inject_Z (2 ^ 63)) by (vm_compute; discriminate). lra.
Qed.

Lemma Qeq_bool_false x y : ~ x == y -> Qeq_bool x y = false.
Proof.
  intros H. destruct (Qeq_bool x y) eqn:E; [|reflexivity].
  apply Qeq_bool_iff in E. contradiction.
Qed.

(** The percentage for a positive total: finite, and monotone in the
    counter. *)
Lemma percent_pos_mono c1 c2 t :
  (0 < t)%Z -> (t < 2 ^ 63)%Z -> (0 <= c1)%Z -> (c1 <= c2)%Z -> (c2 < 2 ^ 63)%Z ->
  exists q1 q2, percent c1 t = Some q1 /\ percent c2 t = Some q2 /\
                0 <= q1 /\ q1 <= q2.
Proof.
  intros Ht1 Ht2 Hc1 Hc12 Hc2.
  pose proof B63_lt_emax32 as HB.
  assert (HB0 : 0 < B63) by (vm_compute; reflexivity).
  unfold percent.
  rewrite !f32_of_Z_finite by lia.
  set (a1 := rnd binary32 (inject_Z c1)).
  set (a2 := rnd binary32 (inject_Z c2)).
  set (b := rnd binary32 (inject_Z t)).
  assert (Ha1 : 0 <= a1).
  { apply Qle_trans with (rnd binary32 0); [qcompute|].
    apply rnd_mono; [apply prec32|]. change 0 with (inject_Z 0). rewrite <- Zle_Qle. lia. }
  assert (Ha12 : a1 <= a2).
  { apply rnd_mono; [apply prec32|]. rewrite <- Zle_Qle. lia. }
  assert (Ha2 : a2 <= B63).
  { apply rnd32_range; apply inject_Z_B63; lia. }
  assert (Hb1 : 1 <= b).
  { apply Qle_trans with (rnd binary32 1); [qcompute|].
    apply rnd_mono; [apply prec32|]. change 1 with (inject_Z 1). rewrite <- Zle_Qle. lia. }
  unfold f_div. rewrite Qeq_bool_false by (intros E; lra).
  assert (Hq1 : 0 <= a1 / b) by (apply Qle_shift_div_l; lra).
  assert (Hq12 : a1 / b <= a2 / b) by (apply Qdiv_le_mono; lra).
  assert (Hq2 : a2 / b <= B63) by (apply Qle_shift_div_r; [lra|nra]).
  set (q1 := a1 / b) in *. set (q2 := a2 / b) in *.
  assert (Hr1 : 0 <= rnd binary32 q1).
  { apply Qle_trans with (rnd binary32 0); [qcompute|].
    apply rnd_mono; [apply prec32|assumption]. }
  assert (Hr12 : rnd binary32 q1 <= rnd binary32 q2).
  { apply rnd_mono; [apply prec32|assumption]. }
  assert (Hr2 : rnd binary32 q2 <= B63).
  { apply rnd32_range; lra. }
  rewrite (fl_bounded binary32 q1 B63) by lra.
  rewrite (fl_bounded binary32 q2 B63) by lra.
  unfold f_mul.
  set (r1 := rnd binary32 q1) in *. set (r2 := rnd binary32 q2) in *.
  assert (Hs1 : 0 <= rnd binary32 (r1 * 100)).
  { apply Qle_trans with (rnd binary32 0); [qcompute|].
    apply rnd_mono; [apply prec32|lra]. }
  assert (Hs12 : rnd binary32 (r1 * 100) <= rnd binary32 (r2 * 100)).
  { apply rnd_mono; [apply prec32|lra]. }
  assert (Hs2 : rnd binary32 (r2 * 100) <= 100 * B63).
  { apply Qle_trans with (rnd binary32 (100 * B63)); [|qcompute].
    apply rnd_mono; [apply prec32|lra]. }
  rewrite (fl_bounded binary32 (r1 * 100) (100 * B63)) by lra.
  rewrite (fl_bounded binary32 (r2 * 100) (100 * B63)) by lra.
  eauto 10.
Qed.

(** The percentage for a negative total: finite and negative. *)
Lemma percent_neg_total c t :
  (- 2 ^ 63 <= t)%Z -> (t < 0)%Z -> (0 < c)%Z -> (c < 2 ^ 63)%Z ->
  exists q, percent c t = Some q /\ q < 0.
Proof.
  intros Ht1 Ht2 Hc1 Hc2.
  pose proof B63_lt_emax32 as HB.
  assert (HB0 : 0 < B63) by (vm_compute; reflexivity).
  unfold percent.
  rewrite !f32_of_Z_finite by lia.
  set (a := rnd binary32 (inject_Z c)).
  set (b := rnd binary32 (inject_Z t)).
  assert (Ha1 : 1 <= a).
  { apply Qle_trans with (rnd binary32 1); [qcompute|].
    apply rnd_mono; [apply prec32|]. change 1 with (inject_Z 1). rewrite <- Zle_Qle. lia. }
  assert (Ha2 : a <= B63).
  { apply rnd32_range; apply inject_Z_B63; lia. }
  assert (Hb1 : - B63 <= b).
  { apply rnd32_range; apply inject_Z_B63; lia. }
  assert (Hb2 : b <= -1).
  { apply Qle_trans with (rnd binary32 (-1)); [|qcompute].
    apply rnd_mono; [apply prec32|]. change (-1) with (inject_Z (-1)). rewrite <- Zle_Qle. lia. }
  unfold f_div. rewrite Qeq_bool_false by (intros E; lra).
  assert (Hqb : b * (a / b) == a) by (apply Qmult_div_r; intros E; lra).
  set (q := a / b) in *.
  assert (Hq1 : - B63 <= q) by nra.
  assert (Hi : 0 < 1 / B63) by (vm_compute; reflexivity).
  assert (Hi1 : 1 / B63 * B63 == 1) by (vm_compute; reflexivity).
  set (K := 1 / B63) in *.
  assert (Hq2 : q <= - K).
  { apply Qnot_lt_le. intros C.
    assert (b * q < b * - K) by nra.
    assert (b * - K <= B63 * K) by nra.
    lra. }
  assert (Hr1 : - B63 <= rnd binary32 q) by (apply rnd32_range; lra).
  assert (Hr2 : rnd binary32 q <= - K).
  { apply Qle_trans with (rnd binary32 (- K)); [|qcompute].
    apply rnd_mono; [apply prec32|assumption]. }
  rewrite (fl_bounded binary32 q B63) by lra.
  unfold f_mul. set (r := rnd binary32 q) in *.
  assert (Hs1 : - (100 * B63) <= rnd binary32 (r * 100)).
  { apply Qle_trans with (rnd binary32 (- (100 * B63))); [qcompute|].
    apply rnd_mono; [apply prec32|lra]. }
  assert (Hs2 : rnd binary32 (r * 100) <= - K).
  { apply Qle_trans with (rnd binary32 (- K)); [|qcompute].
    apply rnd_mono; [apply prec32|lra]. }
  rewrite (fl_bounded binary32 (r * 100) (100 * B63)) by lra.
  eexists. split; [reflexivity|lra].
Qed.

(** ** The one-second gate *)

Lemma f_of_Z_le fmt (Hp : (1 <= prec fmt)%Z) z n q :
  (z <= n)%Z -> f_of_Z fmt z = Some q -> q <= rnd fmt (inject_Z n).
Proof.
  intros Hz. unfold f_of_Z, fl. destruct (Qle_bool _ _); [discriminate|].
  intros [= <-]. apply rnd_mono; [assumption|]. rewrite <- Zle_Qle. assumption.
Qed.

Lemma fl_le fmt (Hp : (1 <= prec fmt)%Z) x y q :
  x <= y -> fl fmt x = Some q -> q <= rnd fmt y.
Proof.
  intros Hxy. unfold fl. destruct (Qle_bool _ _); [discriminate|].
  intros [= <-]. apply rnd_mono; assumption.
Qed.

(** A duration shorter than a second is less than [1.0] seconds. *)
Lemma time_Seconds_lt_1 d q :
  (d < Second)%Z -> time_Seconds d = Some q -> q < 1.
Proof.
  intros Hd. unfold time_Seconds, f_add, f_div.
  destruct (f_of_Z binary64 (d ÷ Second)) as [s|] eqn:Es; [|discriminate].
  destruct (f_of_Z binary64 (Z.rem d Second)) as [n|] eqn:En; [|discriminate].
  change (Qeq_bool 1000000000 0) with false. cbv iota.
  destruct (fl binary64 (n / 1000000000)) as [f|] eqn:Ef; [|discriminate].
  intros Hq.
  assert (Hsec : (d ÷ Second <= 0)%Z /\ (Z.rem d Second <= 999999999)%Z).
  { unfold Second in *. destruct (Z_lt_le_dec d 0).
    - pose proof (Z.quot_le_mono d 0 1000000000 ltac:(lia) ltac:(lia)) as Hm.
      rewrite Z.quot_0_l in Hm by lia.
      pose proof (Z.rem_nonpos d 1000000000 ltac:(lia) ltac:(lia)). lia.
    - rewrite Z.quot_small by lia. rewrite Z.rem_small by lia. lia. }
  destruct Hsec as [Hs Hn].
  pose proof (f_of_Z_le binary64 prec64 _ _ _ Hs Es) as Hs'.
  pose proof (f_of_Z_le binary64 prec64 _ _ _ Hn En) as Hn'.
  assert (Hs0 : s <= 0) by (eapply Qle_trans; [exact Hs'|qcompute]).
  assert (Hn0 : n <= 999999999) by (eapply Qle_trans; [exact Hn'|qcompute]).
  assert (Hf : f <= rnd binary64 (999999999 / 1000000000)).
  { eapply fl_le; [apply prec64| |exact Ef].
    apply Qdiv_le_mono; [reflexivity|assumption]. }
  assert (Hq' : q <= rnd binary64 (0 + rnd binary64 (999999999 / 1000000000))).
  { eapply fl_le; [apply prec64| |exact Hq]. lra. }
  eapply Qle_lt_trans; [exact Hq'|]. vm_compute. reflexivity.
Qed.

Lemma gate_open d :
  f_geb (time_Seconds d) (Some 1) = true -> (Second <= d)%Z.
Proof.
  unfold f_geb. destruct (time_Seconds d) as [q|] eqn:E; [|discriminate].
  intros H. apply Qle_bool_iff in H.
  destruct (Z_lt_le_dec d Second) as [L|G]; [|assumption].
  pose proof (time_Seconds_lt_1 d q L E). exfalso. lra.
Qed.

Lemma Qtrunc_mono x y : x <= y -> (Qtrunc x <= Qtrunc y)%Z.
Proof.
  intros Hxy. unfold Qtrunc.
  destruct (Qle_bool 0 x) eqn:Ex, (Qle_bool 0 y) eqn:Ey.
  - apply Qfloor_resp_le. assumption.
  - apply Qle_bool_iff in Ex. exfalso.
    assert (~ 0 <= y) by (intros C; apply Qle_bool_iff in C; congruence). lra.
  - apply Z.le_trans with 0%Z.
    + assert (x <= 0).
      { apply Qnot_lt_le. intros C. apply Qlt_le_weak, Qle_bool_iff in C. congruence. }
      change 0%Z with (Qceiling 0). apply Qceiling_resp_le. assumption.
    + apply Qle_bool_iff in Ey. change 0%Z with (Qfloor 0). apply Qfloor_resp_le. assumption.
  - apply Qceiling_resp_le. assumption.
Qed.

Lemma B63_lt_emax64 : 2 * B63 < pow2 (emax binary64).
Proof. vm_compute. reflexivity. Qed.

Lemma rnd64_range x B :
  Qle_bool (rnd binary64 B) B = true ->
  Qle_bool (- B) (rnd binary64 (- B)) = true ->
  - B <= x -> x <= B -> - B <= rnd binary64 x /\ rnd binary64 x <= B.
Proof.
  intros HB1 HB2 H1 H2.
  apply Qle_bool_iff in HB1, HB2. split.
  - apply Qle_trans with (rnd binary64 (- B)); [assumption|].
    apply rnd_mono; [apply prec64|assumption].
  - apply Qle_trans with (rnd binary64 B); [|assumption].
    apply rnd_mono; [apply prec64|assumption].
Qed.

Lemma quot_rem_Second d :
  (- 2 ^ 63 <= d)%Z -> (d < 2 ^ 63)%Z ->
  (- 2 ^ 63 <= Z.quot d Second <= 2 ^ 63)%Z /\
  (- 1000000000 <= Z.rem d Second <= 1000000000)%Z.
Proof.
  intros H1 H2. unfold Second.
  pose proof (Z.quot_rem' d 1000000000) as E.
  destruct (Z_lt_le_dec d 0) as [N|P].
  - pose proof (Z.rem_nonpos d 1000000000 ltac:(lia) ltac:(lia)).
    pose proof (Z.rem_bound_abs d 1000000000 ltac:(lia)). lia.
  - pose proof (Z.rem_bound_pos d 1000000000 ltac:(lia) ltac:(lia)). lia.
Qed.

(** [d.Seconds()] of an [int64] duration is finite. *)
Lemma time_Seconds_finite d :
  in_int64 d = true -> exists q, time_Seconds d = Some q.
Proof.
  unfold in_int64. intros H. apply andb_true_iff in H as [H1 H2].
  apply Z.leb_le in H1. apply Z.ltb_lt in H2.
  destruct (quot_rem_Second d H1 H2) as [[S1 S2] [N1 N2]].
  pose proof B63_lt_emax64 as HB.
  assert (HB0 : 0 < B63) by (vm_compute; reflexivity).
  unfold time_Seconds, f_add, f_div, f_of_Z.
  destruct (inject_Z_B63 _ S1 S2) as [A1 A2].
  destruct (rnd64_range (inject_Z (Z.quot d Second)) B63) as [R1 R2];
    [vm_compute; reflexivity|vm_compute; reflexivity|assumption|assumption|].
  rewrite (fl_bounded binary64 (inject_Z (Z.quot d Second)) B63) by lra.
  assert (M1 : -(1000000000) <= inject_Z (Z.rem d Second)).
  { change (-(1000000000)) with (inject_Z (-1000000000)). rewrite <- Zle_Qle. lia. }
  assert (M2 : inject_Z (Z.rem d Second) <= 1000000000).
  { change 1000000000 with (inject_Z 1000000000). rewrite <- Zle_Qle. lia. }
  destruct (rnd64_range (inject_Z (Z.rem d Second)) 1000000000) as [T1 T2];
    [vm_compute; reflexivity|vm_compute; reflexivity|assumption|assumption|].
  assert (HB1 : 1000000000 < B63) by (vm_compute; reflexivity).
  rewrite (fl_bounded binary64 (inject_Z (Z.rem d Second)) 1000000000) by lra.
  change (Qeq_bool 1000000000 0) with false. cbv iota.
  set (n := rnd binary64 (inject_Z (Z.rem d Second))) in *.
  set (s := rnd binary64 (inject_Z (Z.quot d Second))) in *.
  assert (F1 : -(1) <= n / 1000000000) by (apply Qle_shift_div_l; [reflexivity|lra]).
  assert (F2 : n / 1000000000 <= 1) by (apply Qle_shift_div_r; [reflexivity|lra]).
  destruct (rnd64_range (n / 1000000000) 1) as [G1 G2];
    [vm_compute; reflexivity|vm_compute; reflexivity|assumption|assumption|].
  rewrite (fl_bounded binary64 (n / 1000000000) 1) by lra.
  set (f := rnd binary64 (n / 1000000000)) in *.
  destruct (rnd64_range (s + f) (2 * B63)) as [K1 K2];
    [vm_compute; reflexivity|vm_compute; reflexivity|lra|lra|].
  rewrite (fl_bounded binary64 (s + f) (2 * B63)) by lra.
  eauto.
Qed.

(** The rational model and the Standard Library's floats agree where they
    are run side by side. *)
Example percent_agrees_with_binary32 :
  forallb (fun ct => float_eqb (SF2Q (sf_percent ct.1 ct.2)) (percent ct.1 ct.2))
    [(1, 3); (5, -1); (11, 11); (16777217, 16777219); (123456789, 987654321);
     (1, 9223372036854775807); (9223372036854775807, 1); (1024, 3000000000);
     (33554433, 100000001); (7, 0)]%Z = true.
Proof. vm_compute. reflexivity. Qed.

Example Seconds_agrees_with_binary64 :
  forallb (fun d => float_eqb (SF2Q (sf_Seconds d)) (time_Seconds d))
    [0; 1; 999999999; 1000000000; 1500000001; 123456789123;
     9223372036854775807; -5; -1500000000]%Z = true.
Proof. vm_compute. reflexivity. Qed.

Close Scope Q_scope.

(** A duration of a second or more between two [int64] clock readings is
    a difference of a second or more. *)
Lemma time_Sub_elapsed t u :
  in_int64 t = true -> in_int64 u = true ->
  Second <= time_Sub t u -> Second <= t - u.
Proof.
  unfold in_int64, time_Sub, wrap64, maxDuration, minDuration, Second.
  intros Ht Hu.
  apply andb_true_iff in Ht as [Ht1 Ht2]. apply andb_true_iff in Hu as [Hu1 Hu2].
  apply Z.leb_le in Ht1, Hu1. apply Z.ltb_lt in Ht2, Hu2.
  pose proof (Z.mod_pos_bound (t - u + 2 ^ 63) (2 ^ 64) ltac:(lia)) as Hr.
  pose proof (Z.div_mod (t - u + 2 ^ 63) (2 ^ 64) ltac:(lia)) as Hq.
  set (r := (t - u + 2 ^ 63) mod 2 ^ 64) in *.
  set (q := (t - u + 2 ^ 63) / 2 ^ 64) in *.
  destruct (Z.ltb_spec (r - 2 ^ 63) 0), (Z.ltb_spec u t),
           (Z.ltb_spec 0 (r - 2 ^ 63)), (Z.ltb_spec t u); simpl; lia.
Qed.

Lemma wrap64_range z : - 2 ^ 63 <= wrap64 z < 2 ^ 63.
Proof.
  unfold wrap64.
  pose proof (Z.mod_pos_bound (z + 2 ^ 63) (2 ^ 64) ltac:(lia)). lia.
Qed.

(** [t.Sub(u)] is an [int64]. *)
Lemma time_Sub_int64 t u : in_int64 (time_Sub t u) = true.
Proof.
  unfold in_int64, time_Sub, maxDuration, minDuration.
  pose proof (wrap64_range (t - u)).
  apply andb_true_iff.
  destruct (_ && _); [split; [apply Z.leb_le|apply Z.ltb_lt]; lia|].
  destruct (_ && _); split; (apply Z.leb_le || apply Z.ltb_lt); lia.
Qed.

Lemma wrap64_small z : - 2 ^ 63 <= z -> z < 2 ^ 63 -> wrap64 z = z.
Proof.
  intros H1 H2. unfold wrap64. rewrite Z.mod_small; lia.
Qed.

Lemma body_bytes_cons c rest :
  body_bytes (c :: rest) = Z.of_nat (length (ck_data c)) + body_bytes rest.
Proof. unfold body_bytes. simpl. rewrite length_app. lia. Qed.

Lemma body_bytes_nonneg body : 0 <= body_bytes body.
Proof. unfold body_bytes. lia. Qed.

Lemma samples_app a b : samples (a ++ b) = samples a ++ samples b.
Proof. unfold samples. apply flat_map_app. Qed.

Lemma progress_calls_app a b :
  progress_calls (a ++ b) = progress_calls a ++ progress_calls b.
Proof. unfold progress_calls. apply flat_map_app. Qed.

Lemma sent_app a b : sent (a ++ b) = (sent a + sent b)%nat.
Proof. unfold sent. rewrite List.filter_app, length_app. reflexivity. Qed.

(** Without overflow the counter only grows. *)
Lemma counters_increasing body : forall cur,
  0 <= cur -> cur + body_bytes body < 2 ^ 63 ->
  Forall (fun c => cur < c <= cur + body_bytes body) (counters cur body) /\
  StronglySorted Z.le (counters cur body).
Proof.
  induction body as [|c rest IH]; intros cur H0 Hb; simpl.
  - split; constructor.
  - rewrite body_bytes_cons in *.
    pose proof (body_bytes_nonneg rest) as Hr.
    destruct (0 <? Z.of_nat (length (ck_data c))) eqn:En.
    + apply Z.ltb_lt in En. rewrite wrap64_small by lia.
      destruct (ck_err c); simpl.
      * split; repeat constructor; lia.
      * destruct (IH (cur + Z.of_nat (length (ck_data c)))) as [F S]; [lia..|].
        split.
        -- constructor; [lia|].
           eapply Forall_impl; [exact F|]. simpl. intros; lia.
        -- constructor; [exact S|].
           eapply Forall_impl; [exact F|]. simpl. intros; lia.
    + apply Z.ltb_ge in En. simpl.
      destruct (ck_err c); simpl.
      * split; constructor.
      * destruct (IH cur) as [F S]; [lia..|]. split; [|exact S].
        eapply Forall_impl; [exact F|]. simpl. intros; lia.
Qed.

Lemma progress_le_known_total c1 c2 t :
  0 < t -> t < 2 ^ 63 -> 0 <= c1 -> c1 <= c2 -> c2 < 2 ^ 63 ->
  progress_le (c1, t) (c2, t).
Proof.
  intros.
  destruct (percent_pos_mono c1 c2 t) as (q1 & q2 & E1 & E2 & P & L);
    try assumption.
  split; [eauto|].
  intros u v. unfold updateProgressBar. simpl. rewrite E1, E2. simpl.
  destruct (in_int64 (Qtrunc q1)); [|discriminate].
  destruct (in_int64 (Qtrunc q2)); [|discriminate].
  intros [= <-] [= <-]. apply Qtrunc_mono. assumption.
Qed.

Lemma StronglySorted_map_total t cs :
  0 < t -> t < 2 ^ 63 ->
  Forall (fun c => 0 <= c < 2 ^ 63) cs -> StronglySorted Z.le cs ->
  StronglySorted progress_le (map (fun c => (c, t)) cs).
Proof.
  intros Ht1 Ht2 HF HS. induction HS as [|c cs HS IH HA]; simpl; [constructor|].
  inversion HF as [|? ? Hc HF']; subst.
  constructor; [apply IH; assumption|].
  apply Forall_map. apply Forall_forall. intros c' Hin.
  rewrite Forall_forall in HA, HF'.
  apply progress_le_known_total; try lia.
  - apply HA. assumption.
  - apply HF'. assumption.
Qed.

Lemma length_substring s : forall n m,
  (n + m <= String.length s)%nat -> String.length (String.substring n m s) = m.
Proof.
  induction s as [|c s IH]; intros n m H; simpl in *.
  - destruct n, m; simpl; lia.
  - destruct n; simpl.
    + destruct m; simpl; [reflexivity|]. rewrite IH; lia.
    + apply IH. lia.
Qed.

Lemma slice_from_short s : (String.length s < 6)%nat ->
  slice_from s (Z.of_nat (String.length s) - 6) = None.
Proof.
  intros H. unfold slice_from.
  replace (Z.of_nat (String.length s) - 6 <? 0) with true
    by (symmetry; apply Z.ltb_lt; lia).
  reflexivity.
Qed.

Lemma slice_from_long s : (6 <= String.length s)%nat ->
  exists suffix, slice_from s (Z.of_nat (String.length s) - 6) = Some suffix /\
                 String.length suffix = 6%nat.
Proof.
  intros H. unfold slice_from.
  replace (Z.of_nat (String.length s) - 6 <? 0) with false
    by (symmetry; apply Z.ltb_ge; lia).
  replace (Z.of_nat (String.length s) <? Z.of_nat (String.length s) - 6)
    with false by (symmetry; apply Z.ltb_ge; lia).
  simpl. eexists. split; [reflexivity|].
  rewrite length_substring; lia.
Qed.

Section Properties.
Context {world : Type} `{!OS world}.

(** ** The read loop of [downloadFile] *)

Lemma readLoop_samples file out body (s : lstate) :
  samples_ok (lastTime s) (lastBytes s) (samples (readLoop file out body s).1.2).
Proof.
  revert s. induction body as [|c rest IH]; intros s; simpl; [exact I|].
  unfold onChunk.
  destruct (0 <? Z.of_nat (length (ck_data c))) eqn:En.
  - destruct (fs_write out (ck_data c) (ls_world s)) as [w' [nw ew]].
    destruct (f_geb _ _) eqn:Eg.
    + apply gate_open in Eg.
      match goal with |- context [readLoop file out rest ?s1] =>
        specialize (IH s1);
        destruct (readLoop file out rest s1) as [[s2 evs2] ex] end.
      destruct (ck_err c) as [e|]; [destruct (decide (e = EOF))|]; simpl;
        rewrite ?samples_app; simpl; auto.
    + match goal with |- context [readLoop file out rest ?s1] =>
        specialize (IH s1);
        destruct (readLoop file out rest s1) as [[s2 evs2] ex] end.
      destruct (ck_err c) as [e|]; [destruct (decide (e = EOF))|]; simpl;
        rewrite ?samples_app; simpl; auto.
  - specialize (IH s). destruct (readLoop file out rest s) as [[s2 evs2] ex].
    destruct (ck_err c) as [e|]; [destruct (decide (e = EOF))|]; simpl; auto.
Qed.

Lemma readLoop_progress_calls file out body (s : lstate) :
  progress_calls (readLoop file out body s).1.2 =
  map (fun c => (c, total (ls_bar s))) (counters (current (ls_bar s)) body).
Proof.
  revert s. induction body as [|c rest IH]; intros s; simpl; [reflexivity|].
  unfold onChunk.
  destruct (0 <? Z.of_nat (length (ck_data c))) eqn:En.
  - destruct (fs_write out (ck_data c) (ls_world s)) as [w' [nw ew]].
    destruct (f_geb _ _) eqn:Eg;
      (match goal with |- context [readLoop file out rest ?s1] =>
         specialize (IH s1);
         destruct (readLoop file out rest s1) as [[s2 evs2] ex] end;
       destruct (ck_err c) as [e|]; [destruct (decide (e = EOF))|]; simpl in *;
       rewrite ?progress_calls_app; simpl; rewrite ?IH; reflexivity).
  - specialize (IH s). destruct (readLoop file out rest s) as [[s2 evs2] ex].
    destruct (ck_err c) as [e|]; [destruct (decide (e = EOF))|]; simpl in *;
      rewrite ?IH; reflexivity.
Qed.

(** The loop itself sends nothing on [done]. *)
Lemma readLoop_sent file out body (s : lstate) :
  sent (readLoop file out body s).1.2 = 0%nat.
Proof.
  revert s. induction body as [|c rest IH]; intros s; simpl; [reflexivity|].
  unfold onChunk.
  destruct (0 <? Z.of_nat (length (ck_data c))) eqn:En.
  - destruct (fs_write out (ck_data c) (ls_world s)) as [w' [nw ew]].
    destruct (f_geb _ _) eqn:Eg;
      (match goal with |- context [readLoop file out rest ?s1] =>
         specialize (IH s1);
         destruct (readLoop file out rest s1) as [[s2 evs2] ex] end;
       destruct (ck_err c) as [e|]; [destruct (decide (e = EOF))|];
       unfold sent in *; simpl in *; assumption || reflexivity).
  - specialize (IH s). destruct (readLoop file out rest s) as [[s2 evs2] ex].
    destruct (ck_err c) as [e|]; [destruct (decide (e = EOF))|];
      unfold sent in *; simpl in *; assumption || reflexivity.
Qed.

(** A task sends on [done] once when its loop ends with [break], and not
    at all on any of its [return]s. *)
Lemma downloadFile_sent net p directory file order (w : world) :
  (sent (downloadFile net p directory file order w).2 <= 1)%nat /\
  (forall e, fetch_get (net (patchSource +:+ file)) = Err e ->
             sent (downloadFile net p directory file order w).2 = 0%nat) /\
  (forall w1 e, fs_create (directory +:+ "/" +:+ file) w = (w1, Some e) ->
                sent (downloadFile net p directory file order w).2 = 0%nat).
Proof.
  unfold downloadFile, os_Create.
  destruct (fs_create _ w) as [w1 [e|]]; simpl.
  - repeat split; intros; try reflexivity. unfold sent. simpl. lia.
  - destruct (fetch_get _) as [resp|e]; simpl.
    + split; [|split; intros; discriminate].
      destruct (bar_at p (order - 1)) as [b|]; simpl; [|unfold sent; simpl; lia].
      match goal with |- context [readLoop file ?out ?body ?s0] =>
        pose proof (readLoop_sent file out body s0) as H;
        destruct (readLoop file out body s0) as [[s evs] ex] end.
      simpl in *. rewrite sent_app, H. destruct ex; unfold sent; simpl; lia.
    + repeat split; intros; try reflexivity; try discriminate.
      unfold sent. simpl. lia.
Qed.

(** C6. Speed samples are emitted at most once per second: every sample
    comes at least one second ([time.Sub] of the two clock readings) after
    the previous one, the first one at least one second after the start of
    the transfer, and the speed of each is the number of bytes counted since
    the previous sample (since the start, for the first one) divided by the
    seconds elapsed since then, in [float64]. *)
Theorem speed_samples_spaced net p directory file order (w : world) :
  samples_ok (fetch_start (net (patchSource +:+ file))) 0
             (samples (downloadFile net p directory file order w).2).
Proof.
  unfold downloadFile.
  destruct (os_Create _ w) as [w1 [out|e]]; [|exact I].
  destruct (fetch_get _) as [resp|e]; [|exact I].
  destruct (bar_at p (order - 1)) as [b|]; [|exact I].
  match goal with |- context [readLoop file out ?body ?s0] =>
    pose proof (readLoop_samples file out body s0) as H;
    destruct (readLoop file out body s0) as [[s evs] ex] end.
  simpl in *. rewrite samples_app.
  replace (samples match ex with Break => [DoneSend] | Returned => [] end)
    with (@nil (Z * Z * float)) by (destruct ex; reflexivity).
  rewrite app_nil_r. exact H.
Qed.

(** For a positive declared length and a counter that does not overflow,
    the updates of a task are in order and every percentage is finite and
    not negative. *)
Lemma progress_sorted_known_total
    net p directory file order (w : world) resp b :
  fetch_get (net (patchSource +:+ file)) = Ok resp ->
  bar_at p (order - 1) = Some b ->
  0 < ContentLength resp -> ContentLength resp < 2 ^ 63 ->
  0 <= current b -> current b + body_bytes (Body resp) < 2 ^ 63 ->
  StronglySorted progress_le
    (progress_calls (downloadFile net p directory file order w).2) /\
  Forall (fun a => exists q, percent a.1 a.2 = Some q /\ (0 <= q)%Q)
    (progress_calls (downloadFile net p directory file order w).2).
Proof.
  intros Hget Hbar Ht1 Ht2 Hc0 Hb.
  unfold downloadFile.
  destruct (os_Create _ w) as [w1 [out|e]]; [|split; constructor].
  rewrite Hget, Hbar.
  match goal with |- context [readLoop file out ?body ?s0] =>
    pose proof (readLoop_progress_calls file out body s0) as H;
    destruct (readLoop file out body s0) as [[s evs] ex] end.
  simpl in *. rewrite progress_calls_app, H.
  replace (progress_calls match ex with Break => [DoneSend] | Returned => [] end)
    with (@nil (Z * Z)) by (destruct ex; reflexivity).
  rewrite app_nil_r.
  destruct (counters_increasing (Body resp) (current b) Hc0 Hb) as [F S].
  pose proof (body_bytes_nonneg (Body resp)) as Hn.
  split.
  - apply StronglySorted_map_total; try assumption.
    eapply Forall_impl; [exact F|]. simpl. intros c Hc. lia.
  - apply Forall_map. eapply Forall_impl; [exact F|]. simpl. intros c Hc.
    destruct (percent_pos_mono c c (ContentLength resp))
      as (q & _ & E & _ & P & _); try lia.
    eauto.
Qed.

(** C3, as amended. For a task whose declared content length is unknown
    (negative), a percentage is computed all the same: [updateProgressBar]
    is called after every non-empty read with the counter and the negative
    length, and [float32(current) / float32(total) * 100] is then a finite
    negative number (as long as the [int64] counter does not overflow). *)
Theorem unknown_length_still_reported
    net p directory file order (w w1 : world) resp b :
  fs_create (directory +:+ "/" +:+ file) w = (w1, None) ->
  fetch_get (net (patchSource +:+ file)) = Ok resp ->
  bar_at p (order - 1) = Some b ->
  - 2 ^ 63 <= ContentLength resp -> ContentLength resp < 0 ->
  0 <= current b -> current b + body_bytes (Body resp) < 2 ^ 63 ->
  let calls := progress_calls (downloadFile net p directory file order w).2 in
  calls = map (fun c => (c, ContentLength resp))
              (counters (current b) (Body resp)) /\
  Forall (fun a => exists q, percent a.1 a.2 = Some q /\ (q < 0)%Q) calls.
Proof.
  intros Hcr Hget Hbar Ht1 Ht2 Hc0 Hb calls. subst calls.
  unfold downloadFile, os_Create. rewrite Hcr, Hget, Hbar.
  match goal with |- context [readLoop file ?out ?body ?s0] =>
    pose proof (readLoop_progress_calls file out body s0) as H;
    destruct (readLoop file out body s0) as [[s evs] ex] end.
  simpl in *. rewrite progress_calls_app, H.
  replace (progress_calls match ex with Break => [DoneSend] | Returned => [] end)
    with (@nil (Z * Z)) by (destruct ex; reflexivity).
  rewrite app_nil_r. split; [reflexivity|].
  apply Forall_map.
  destruct (counters_increasing (Body resp) (current b) Hc0 Hb) as [F _].
  eapply Forall_impl; [exact F|]. simpl. intros c Hc.
  apply percent_neg_total; lia.
Qed.

(** ** The extraction loop *)



(** What makes one entry fatal. *)
Lemma untarLoop_fatal_entries dest (w : world) :
  (forall e, e <> EOF -> untarLoop dest [TarErr e] w = (w, [], Some e)) /\
  (forall h body w1 e,
     Typeflag h = TypeDir ->
     os_MkdirAll (dest +:+ "/" +:+ Name h) w = (w1, Some e) ->
     untarLoop dest [TarEntry h body] w = (w1, [], Some e)) /\
  (forall h body w1 e,
     Typeflag h = TypeReg ->
     os_Create (dest +:+ "/" +:+ Name h) w = (w1, Err e) ->
     untarLoop dest [TarEntry h body] w = (w1, [], Some e)) /\
  (forall h body w1 f w2 e,
     Typeflag h = TypeReg ->
     os_Create (dest +:+ "/" +:+ Name h) w = (w1, Ok f) ->
     io_Copy f body w1 = (w2, Some e) ->
     untarLoop dest [TarEntry h body] w = (w2, [], Some e)).
Proof.
  repeat split.
  - intros e He. simpl. destruct (decide (e = EOF)); [contradiction|reflexivity].
  - intros h body w1 e Hk Hm. simpl. rewrite Hk. simpl. rewrite Hm. reflexivity.
  - intros h body w1 e Hk Hc. simpl. rewrite Hk. simpl. rewrite Hc. reflexivity.
  - intros h body w1 f w2 e Hk Hc Hio. simpl. rewrite Hk. simpl.
    rewrite Hc, Hio. reflexivity.
Qed.


(** ** The suffix check of [untarGz] *)

Lemma untarGz_panics_short src dest (w : world) :
  fs_open src w = None -> (String.length src < 6)%nat ->
  untarGz src dest w = (w, [], Panic "slice bounds out of range").
Proof.
  intros Ho Hl. unfold untarGz, os_Open. rewrite Ho. simpl.
  rewrite slice_from_short by assumption. reflexivity.
Qed.

(** A slice of six bytes never equals the seven bytes of [".tar.gz"]: once
    the file is open and its name is long enough, [untarGz] returns [nil]
    and extracts nothing, whatever the name and the content. *)
Lemma untarGz_skips_long src dest (w : world) :
  fs_open src w = None -> (6 <= String.length src)%nat ->
  untarGz src dest w = (w, [], Return None).
Proof.
  intros Ho Hl. unfold untarGz, os_Open. rewrite Ho. simpl.
  destruct (slice_from_long src Hl) as (suffix & -> & Hs).
  destruct (String.eqb suffix ".tar.gz") eqn:E; [|reflexivity].
  apply String.eqb_eq in E. subst suffix. simpl in Hs. lia.
Qed.

(** C9. When the source file opens and its path is shorter than six
    bytes, the suffix check panics (slice bounds out of range); nothing is
    returned and the file system is as it was. *)
Theorem untarGz_short_path_panics src dest (w : world) :
  fs_open src w = None -> (String.length src < 6)%nat ->
  untarGz src dest w = (w, [], Panic "slice bounds out of range").
Proof. apply untarGz_panics_short. Qed.

(** C10. The source is opened before its name is looked at: when
    [os.Open] fails, [untarGz] returns that error, whatever the name, and
    leaves the file system as it was. *)
Theorem untarGz_open_error_first src dest (w : world) e :
  fs_open src w = Some e ->
  untarGz src dest w = (w, [], Return (Some e)).
Proof.
  intros Ho. unfold untarGz, os_Open. rewrite Ho. reflexivity.
Qed.
End Properties.

(** ** Runs on the in-memory file system *)

(** The samples of a transfer of eleven bytes in three reads, at 1.5 s,
    1.6 s and 2.7 s after the start: the second read is too early for a
    sample. *)
Example samples_of_three_reads :
  samples (downloadFile (net_all 11) window0 "D" "info.txt" 1 disk).2 =
    [(1500000000, 5, speed_since 0 0 1500000000 5);
     (2700000000, 11, speed_since 1500000000 5 2700000000 11)] /\
  float_eqb (speed_since 1500000000 5 2700000000 11) (Some 5%Q) = true.
Proof. vm_compute. split; reflexivity. Qed.

(** C1. [disk] holds, in [D/AraxiaPatchv1.tar.gz], a well-formed archive
    with the directory [a/] and the file [a/b.txt] = "hello".  [untarGz]
    returns [nil] and leaves the file system as it was: neither [D/a] nor
    [D/a/b.txt] exists afterwards.  The extraction loop, run on the entries
    of that archive, would have created both. *)
Theorem untarGz_leaves_archive_packed :
  untarGz "D/AraxiaPatchv1.tar.gz" "D" disk = (disk, [], Return None) /\
  MemFS.lookup_path disk ["D"; "a"] = None /\
  MemFS.lookup_path disk ["D"; "a"; "b.txt"] = None /\
  gzip_NewReader {| file_Name := "D/AraxiaPatchv1.tar.gz" |} disk
    = Ok example_entries /\
  (let '(w, out, err) := untarLoop "D" example_entries disk in
   err = None /\
   MemFS.lookup_path w ["D"; "a"] = Some MemFS.Dir /\
   MemFS.lookup_path w ["D"; "a"; "b.txt"]
     = Some (MemFS.Reg (MemFS.bytes "hello"))).
Proof.
  split; [apply untarGz_skips_long; [reflexivity|simpl; lia]|].
  vm_compute. repeat split; reflexivity.
Qed.

(** C2. When the GET of [info.txt] fails and the two other downloads
    succeed, the failed task prints its message and sends nothing on
    [done]; [run] receives two values where it waits for three and stays
    blocked, so no extraction follows.  With three successful downloads it
    receives three and returns.  A task whose file cannot be created, or
    whose body read fails, sends nothing either. *)
Theorem run_blocks_after_failed_download :
  (downloadFile net_flaky window0 "D" "info.txt" 1 disk).2 =
    [Stdout "Error downloading file: info.txt"] /\
  (let '(w, p, evs, r) := run ["araxiapatch"; "D"] net_flaky window0 disk in
   sent evs = 2%nat /\ r = RunBlocked) /\
  (let '(w, p, evs, r) := run ["araxiapatch"; "D"] (net_all 11) window0 disk in
   sent evs = 3%nat /\ r = RunReturned) /\
  (downloadFile (net_all 11) window0 "nodir" "info.txt" 1 disk).2 =
    [Stdout "Error creating file: info.txt"] /\
  (downloadFile net_reset window0 "D" "info.txt" 1 disk).2 =
    [OutWrite 5 None; UpdateProgressBar 5 11;
     Stdout "Error writing file: info.txt connection reset by peer"].
Proof. vm_compute. repeat split; reflexivity. Qed.

(** C4. On a disk with room for three bytes, a download of eleven bytes
    goes on after the first [Write] has failed: the task ends with the
    counter at 11 and signals completion, while the file holds three
    bytes. *)
Theorem short_write_not_noticed :
  let '(w, p, evs) :=
    downloadFile (net_all 11) window0 "D" "info.txt" 1 full_disk in
  evs = [OutWrite 3 (Some ENOSPC);
         SpeedSample 1500000000 5 (speed_since 0 0 1500000000 5);
         UpdateProgressBar 5 11;
         OutWrite 0 (Some ENOSPC);
         UpdateProgressBar 10 11;
         OutWrite 0 (Some ENOSPC);
         SpeedSample 2700000000 11 (speed_since 1500000000 5 2700000000 11);
         UpdateProgressBar 11 11;
         DoneSend] /\
  (current <$> bar_at p 0) = Some 11 /\
  written evs = 3 /\
  MemFS.lookup_path w ["D"; "info.txt"] = Some (MemFS.Reg (MemFS.bytes "hel")).
Proof. vm_compute. repeat split; reflexivity. Qed.

(** C8. [a.txt] exists and its name does not end in [.tar.gz], yet
    [untarGz] does not return: the name has five bytes and the suffix check
    panics. *)
Theorem untarGz_panics_on_a_txt :
  MemFS.lookup_path disk ["a.txt"] = Some (MemFS.Reg (MemFS.bytes "text")) /\
  untarGz "a.txt" "D" disk = (disk, [], Panic "slice bounds out of range").
Proof.
  split; [reflexivity|].
  apply untarGz_panics_short; [reflexivity|simpl; lia].
Qed.

(** Against C3 as stated: with a declared length of [-1], a percentage is
    computed and passed to [SetValue] after each read: -500, -1000, -1100. *)
Lemma unknown_length_percentage_reported :
  ContentLength <$> (match fetch_get (net_all (-1) (patchSource +:+ "info.txt"))
                     with Ok r => Some r | Err _ => None end) = Some (-1) /\
  progress_calls (downloadFile (net_all (-1)) window0 "D" "info.txt" 1 disk).2 =
    [(5, -1); (10, -1); (11, -1)] /\
  updateProgressBar 5 (-1) = Some (-500) /\
  updateProgressBar 10 (-1) = Some (-1000) /\
  updateProgressBar 11 (-1) = Some (-1100).
Proof. vm_compute. repeat split; reflexivity. Qed.

(** Against C5 as stated: with a declared length of [-1], the percentage
    goes down as the counter goes up: -500 after five bytes, -1000 after
    ten. *)
Lemma unknown_length_percentage_decreases :
  progress_calls (downloadFile (net_all (-1)) window0 "D" "info.txt" 1 disk).2 =
    [(5, -1); (10, -1); (11, -1)] /\
  float_eqb (percent 5 (-1)) (Some (-500)%Q) = true /\
  float_eqb (percent 10 (-1)) (Some (-1000)%Q) = true /\
  ~ StronglySorted progress_le
      (progress_calls
         (downloadFile (net_all (-1)) window0 "D" "info.txt" 1 disk).2).
Proof.
  split; [vm_compute; reflexivity|].
  split; [vm_compute; reflexivity|].
  split; [vm_compute; reflexivity|].
  replace (progress_calls _) with [(5, -1); (10, -1); (11, -1)]
    by (vm_compute; reflexivity).
  intros H. inversion H as [|? ? _ HF]; subst.
  inversion HF as [|? ? [_ Hle] _]; subst.
  specialize (Hle (-500) (-1000)). simpl in Hle.
  assert (-500 <= -1000); [|lia].
  apply Hle; vm_compute; reflexivity.
Qed.

(** ** Instances *)

(** C3 at a download of eleven bytes that declares [-1]. *)
Lemma unknown_length_still_reported_witness :
  progress_calls (downloadFile (net_all (-1)) window0 "D" "info.txt" 1 disk).2 =
    [(5, -1); (10, -1); (11, -1)] /\
  Forall (fun a => exists q, percent a.1 a.2 = Some q /\ (q < 0)%Q)
    (progress_calls
       (downloadFile (net_all (-1)) window0 "D" "info.txt" 1 disk).2).
Proof.
  apply (unknown_length_still_reported
           (net_all (-1)) window0 "D" "info.txt" 1 disk
           (MemFS.create "D/info.txt" disk).1
           {| ContentLength := -1;
              Body := [{| ck_data := MemFS.bytes "hello"; ck_err := None;
                          ck_now := 1500000000 |};
                       {| ck_data := MemFS.bytes "world"; ck_err := None;
                          ck_now := 1600000000 |};
                       {| ck_data := MemFS.bytes "!"; ck_err := Some EOF;
                          ck_now := 2700000000 |}] |}
           {| order := 1; total := 0; current := 0; file := "info.txt" |}).
  - vm_compute. reflexivity.
  - reflexivity.
  - reflexivity.
  - vm_compute. discriminate.
  - reflexivity.
  - simpl. lia.
  - vm_compute. reflexivity.
Defined.


(** C9 at [a.txt]. *)
Lemma untarGz_short_path_panics_witness :
  untarGz "a.txt" "D" disk = (disk, [], Panic "slice bounds out of range").
Proof.
  apply (untarGz_short_path_panics "a.txt" "D" disk).
  - reflexivity.
  - simpl. lia.
Defined.

(** C10 at [D/info.txt], which does not exist. *)
Lemma untarGz_open_error_first_witness :
  untarGz "D/info.txt" "D" disk = (disk, [], Return (Some ENOENT)).
Proof.
  apply (untarGz_open_error_first "D/info.txt" "D" disk ENOENT).
  reflexivity.
Defined.

(** * Further properties *)

Local Open Scope Q_scope.

(** ** Rounding a representable number *)

Lemma rne_comp x y : x == y -> rne x = rne y.
Proof.
  intros E. unfold rne. rewrite (Qfloor_comp x y E).
  rewrite (Qcompare_comp (x - inject_Z (Qfloor y)) (y - inject_Z (Qfloor y))
             ltac:(rewrite E; reflexivity) (1#2) (1#2) ltac:(reflexivity)).
  reflexivity.
Qed.

Lemma rnd_pos_eq fmt x : 0 < x -> rnd fmt x = rnd_pos fmt x.
Proof.
  intros Hx. unfold rnd. pose proof (Qpos_num x Hx).
  destruct (Qnum x); try lia. reflexivity.
Qed.

Lemma rnd_zero fmt x : x == 0 -> rnd fmt x = 0.
Proof.
  intros Hx. unfold rnd.
  assert (Qnum x = 0%Z) by (destruct x; unfold Qeq in Hx; simpl in *; lia).
  rewrite H. reflexivity.
Qed.

Section Idempotent.
Variable fmt : format.
Hypothesis prec_pos : (1 <= prec fmt)%Z.

Lemma rnd_pos_fixed x k e :
  0 < x -> x == inject_Z k * pow2 e -> (fexp fmt x <= e)%Z ->
  rnd_pos fmt x == x.
Proof using Type.
  intros Hx E He. unfold rnd_pos. set (e' := fexp fmt x) in *.
  assert (P : pow2 e == inject_Z (2 ^ (e - e')) * pow2 e').
  { rewrite pow2_inject by lia. rewrite <- pow2_add.
    replace (e - e' + e')%Z with e by lia. reflexivity. }
  assert (D : x / pow2 e' == inject_Z (k * 2 ^ (e - e'))).
  { rewrite inject_Z_mult. rewrite E, P.
    pose proof (pow2_pos e'). field. lra. }
  rewrite (rne_comp _ _ D), rne_Z. rewrite inject_Z_mult, E, P. ring.
Qed.

Lemma rnd_pos_idem x : 0 < x -> 0 < rnd_pos fmt x ->
  rnd_pos fmt (rnd_pos fmt x) == rnd_pos fmt x.
Proof using prec_pos.
  intros Hx Hy. set (y := rnd_pos fmt x) in *.
  set (e := fexp fmt x).
  destruct (Z_le_gt_dec (fexp fmt y) e) as [L|G].
  - apply rnd_pos_fixed with (k := rne (x / pow2 e)) (e := e);
      [assumption|reflexivity|assumption].
  - pose proof (rnd_pos_upper fmt prec_pos x Hx) as U. fold y e in U.
    destruct (mag_spec y Hy) as [M1 M2].
    assert (Hm : (mag y = e + prec fmt + 1)%Z).
    { unfold fexp in G. fold e in G.
      assert (emin fmt <= e)%Z by (unfold e, fexp; lia).
      assert (e + prec fmt < mag y)%Z by lia.
      destruct (Z_le_gt_dec (mag y) (e + prec fmt + 1)); [lia|].
      assert (pow2 (e + prec fmt + 1) <= pow2 (mag y - 1)) by (apply pow2_le; lia).
      assert (pow2 (e + prec fmt) < pow2 (e + prec fmt + 1)).
      { apply Qpower_lt_compat_l; [lia|reflexivity]. }
      lra. }
    assert (Ey : y == pow2 (e + prec fmt)).
    { apply Qle_antisym; [assumption|].
      replace (e + prec fmt)%Z with (mag y - 1)%Z by lia. assumption. }
    apply rnd_pos_fixed with (k := (2 ^ (prec fmt - 1))%Z) (e := (e + 1)%Z);
      [assumption| |].
    + rewrite Ey. rewrite pow2_inject by lia. rewrite <- pow2_add.
      replace (prec fmt - 1 + (e + 1))%Z with (e + prec fmt)%Z by lia. reflexivity.
    + unfold fexp. rewrite Hm.
      assert (emin fmt <= e)%Z by (unfold e, fexp; lia). lia.
Qed.

(** Rounding a second time changes nothing. *)
Lemma rnd_idem x : rnd fmt (rnd fmt x) == rnd fmt x.
Proof using prec_pos.
  destruct (Q_dec x 0) as [[N|P]|Z].
  - assert (HN : rnd fmt x = - rnd_pos fmt (- x)).
    { unfold rnd. destruct x as [[|n|n] d]; try reflexivity;
        unfold Qlt in N; simpl in N; lia. }
    rewrite HN. set (y := rnd_pos fmt (- x)).
    assert (Hy : 0 <= y) by (apply rnd_pos_nonneg; lra).
    destruct (Qle_lt_or_eq _ _ Hy) as [Hp|Hz].
    + assert (E : rnd fmt (- y) = - rnd_pos fmt (- - y)).
      { unfold rnd. pose proof (Qpos_num y Hp).
        destruct y as [[|n|n] d]; simpl in *; try lia. reflexivity. }
      rewrite E.
      assert (- - y = y) as -> by (destruct y as [[|n|n] d]; reflexivity).
      unfold y. rewrite rnd_pos_idem; [reflexivity|lra|exact Hp].
    + rewrite rnd_zero by (rewrite <- Hz; reflexivity). rewrite <- Hz. reflexivity.
  - rewrite (rnd_pos_eq fmt x P). set (y := rnd_pos fmt x).
    assert (Hy : 0 <= y) by (apply rnd_pos_nonneg; lra).
    destruct (Qle_lt_or_eq _ _ Hy) as [Hp|Hz].
    + rewrite (rnd_pos_eq fmt y Hp). apply rnd_pos_idem; assumption.
    + rewrite rnd_zero by (rewrite <- Hz; reflexivity). rewrite <- Hz. reflexivity.
  - rewrite (rnd_zero fmt x Z). rewrite rnd_zero; reflexivity.
Qed.
End Idempotent.

(** ** The one-second gate, the other way round *)

Lemma fl_ge fmt (Hp : (1 <= prec fmt)%Z) x y q :
  y <= x -> fl fmt x = Some q -> rnd fmt y <= q.
Proof.
  intros Hxy. unfold fl. destruct (Qle_bool _ _); [discriminate|].
  intros [= <-]. apply rnd_mono; assumption.
Qed.

Lemma f_of_Z_ge fmt (Hp : (1 <= prec fmt)%Z) z n q :
  (n <= z)%Z -> f_of_Z fmt z = Some q -> rnd fmt (inject_Z n) <= q.
Proof.
  intros Hz. apply fl_ge; [assumption|]. rewrite <- Zle_Qle. assumption.
Qed.

(** A duration of a second or more is [1.0] seconds or more, and at most
    [2^64] seconds. *)
Lemma time_Seconds_ge_1 d :
  in_int64 d = true -> (Second <= d)%Z ->
  exists q, time_Seconds d = Some q /\ 1 <= q /\ q <= 2 * B63.
Proof.
  intros Hi Hd. destruct (time_Seconds_finite d Hi) as [q E].
  exists q. split; [assumption|].
  unfold in_int64 in Hi. apply andb_true_iff in Hi as [H1 H2].
  apply Z.leb_le in H1. apply Z.ltb_lt in H2.
  destruct (quot_rem_Second d H1 H2) as [[S1 S2] [N1 N2]].
  revert E. unfold time_Seconds, f_add, f_div.
  destruct (f_of_Z binary64 (d ÷ Second)) as [s|] eqn:Es; [|discriminate].
  destruct (f_of_Z binary64 (Z.rem d Second)) as [n|] eqn:En; [|discriminate].
  change (Qeq_bool 1000000000 0) with false. cbv iota.
  destruct (fl binary64 (n / 1000000000)) as [f|] eqn:Ef; [|discriminate].
  intros Hq.
  assert (Hsec : (1 <= d ÷ Second)%Z /\ (0 <= Z.rem d Second)%Z).
  { unfold Second in *.
    pose proof (Z.quot_rem' d 1000000000).
    pose proof (Z.rem_bound_pos d 1000000000 ltac:(lia) ltac:(lia)). lia. }
  destruct Hsec as [Hs Hn].
  pose proof (f_of_Z_ge binary64 prec64 _ _ _ Hs Es) as Hs1.
  pose proof (f_of_Z_le binary64 prec64 _ _ _ S2 Es) as Hs2.
  pose proof (f_of_Z_ge binary64 prec64 _ _ _ Hn En) as Hn1.
  pose proof (f_of_Z_le binary64 prec64 _ _ _ N2 En) as Hn2.
  assert (A1 : 1 <= s) by (eapply Qle_trans; [|exact Hs1]; qcompute).
  assert (A2 : s <= B63) by (eapply Qle_trans; [exact Hs2|]; qcompute).
  assert (B1 : 0 <= n) by (eapply Qle_trans; [|exact Hn1]; qcompute).
  assert (B2 : n <= 1000000000) by (eapply Qle_trans; [exact Hn2|]; qcompute).
  assert (F1 : 0 <= f).
  { eapply Qle_trans; [|eapply (fl_ge binary64 prec64 _ 0); [|exact Ef]];
      [qcompute|]. apply Qle_shift_div_l; [reflexivity|lra]. }
  assert (F2 : f <= 1).
  { eapply Qle_trans; [eapply (fl_le binary64 prec64 _ 1); [|exact Ef]|];
      [|qcompute]. apply Qle_shift_div_r; [reflexivity|lra]. }
  assert (HB0 : 0 < B63) by (vm_compute; reflexivity).
  assert (HB1 : 1 <= B63) by (vm_compute; discriminate).
  split.
  - eapply Qle_trans; [|eapply (fl_ge binary64 prec64 _ 1); [|exact Hq]];
      [qcompute|lra].
  - eapply Qle_trans; [eapply (fl_le binary64 prec64 _ (2 * B63)); [|exact Hq]|];
      [lra|qcompute].
Qed.

(** On [int64] durations, [elapsed >= 1] is the same as "a second or
    more". *)
Lemma gate_iff d :
  in_int64 d = true ->
  f_geb (time_Seconds d) (Some 1) = (Second <=? d)%Z.
Proof.
  intros Hi. destruct (Z.leb_spec Second d) as [G|L].
  - destruct (time_Seconds_ge_1 d Hi G) as (q & E & Hq & _).
    rewrite E. simpl. apply Qle_bool_iff. assumption.
  - destruct (f_geb _ _) eqn:E; [|reflexivity].
    apply gate_open in E. lia.
Qed.

(** ** Speeds *)

Lemma f64_of_Z_finite z :
  (- 2 ^ 63 <= z)%Z -> (z <= 2 ^ 63)%Z ->
  f_of_Z binary64 z = Some (rnd binary64 (inject_Z z)).
Proof.
  intros H1 H2. destruct (inject_Z_B63 z H1 H2) as [A B].
  destruct (rnd64_range (inject_Z z) B63) as [R1 R2];
    [vm_compute; reflexivity|vm_compute; reflexivity|assumption|assumption|].
  apply fl_bounded with (B := B63); try assumption.
  pose proof B63_lt_emax64.
  assert (0 < B63) by (vm_compute; reflexivity). lra.
Qed.

(** A sample taken a second or more after the previous one, with the
    counter higher than then, shows a finite speed that is positive and at
    most the number of bytes counted in between (as a [float64]). *)
Lemma speed_since_bounds t0 c0 t c :
  (0 <= c0)%Z -> (c0 < c)%Z -> (c < 2 ^ 63)%Z -> (Second <= time_Sub t t0)%Z ->
  exists q x, speed_since t0 c0 t c = Some q /\
              f_of_Z binary64 (c - c0) = Some x /\ 0 < q /\ q <= x.
Proof.
  intros H0 H1 H2 Hs. unfold speed_since.
  rewrite wrap64_small by lia.
  destruct (time_Seconds_ge_1 _ (time_Sub_int64 t t0) Hs) as (el & -> & E1 & E2).
  rewrite f64_of_Z_finite by lia.
  set (x := rnd binary64 (inject_Z (c - c0))).
  assert (HB0 : 0 < B63) by (vm_compute; reflexivity).
  assert (X1 : 1 <= x).
  { apply Qle_trans with (rnd binary64 1); [qcompute|].
    apply rnd_mono; [apply prec64|]. change 1 with (inject_Z 1).
    rewrite <- Zle_Qle. lia. }
  assert (X2 : x <= B63).
  { apply (rnd64_range (inject_Z (c - c0)) B63);
      [vm_compute; reflexivity|vm_compute; reflexivity|..];
      apply inject_Z_B63; lia. }
  unfold f_div. rewrite Qeq_bool_false by (intros E; lra).
  assert (K : 1 / (2 * B63) * (2 * B63) == 1) by (vm_compute; reflexivity).
  assert (K0 : 0 < 1 / (2 * B63)) by (vm_compute; reflexivity).
  set (k := 1 / (2 * B63)) in *.
  assert (Q1 : k <= x / el) by (apply Qle_shift_div_l; [lra|nra]).
  assert (Q2 : x / el <= x) by (apply Qle_shift_div_r; [lra|nra]).
  assert (R1 : k <= rnd binary64 (x / el)).
  { apply Qle_trans with (rnd binary64 k); [qcompute|].
    apply rnd_mono; [apply prec64|assumption]. }
  assert (R2 : rnd binary64 (x / el) <= x).
  { apply Qle_trans with (rnd binary64 x);
      [apply rnd_mono; [apply prec64|assumption]|].
    unfold x. rewrite (rnd_idem binary64 prec64). apply Qle_refl. }
  pose proof B63_lt_emax64.
  rewrite (fl_bounded binary64 (x / el) B63) by lra.
  exists (rnd binary64 (x / el)), x. repeat split; try reflexivity; lra.
Qed.

(** ** The percentage at its ends *)

Lemma Qtrunc_comp x y : x == y -> Qtrunc x = Qtrunc y.
Proof.
  intros E. apply Z.le_antisymm; apply Qtrunc_mono; rewrite E; apply Qle_refl.
Qed.

Lemma percent_full t :
  (0 < t)%Z -> (t < 2 ^ 63)%Z ->
  exists q, percent t t = Some q /\ q == 100.
Proof.
  intros H1 H2.
  pose proof B63_lt_emax32 as HB.
  assert (HB0 : 1 <= B63) by (vm_compute; discriminate).
  unfold percent. rewrite f32_of_Z_finite by lia.
  set (a := rnd binary32 (inject_Z t)).
  assert (Ha : 1 <= a).
  { apply Qle_trans with (rnd binary32 1); [qcompute|].
    apply rnd_mono; [apply prec32|]. change 1 with (inject_Z 1).
    rewrite <- Zle_Qle. lia. }
  unfold f_div. rewrite Qeq_bool_false by (intros E; lra).
  assert (D : a / a == 1) by (field; lra).
  assert (R : rnd binary32 (a / a) == 1).
  { apply Qle_antisym.
    - apply Qle_trans with (rnd binary32 1); [|qcompute].
      apply rnd_mono; [apply prec32|]. rewrite D. apply Qle_refl.
    - apply Qle_trans with (rnd binary32 1); [qcompute|].
      apply rnd_mono; [apply prec32|]. rewrite D. apply Qle_refl. }
  rewrite (fl_bounded binary32 (a / a) B63) by (try rewrite R; lra).
  unfold f_mul. set (r := rnd binary32 (a / a)) in *.
  assert (S : rnd binary32 (r * 100) == 100).
  { apply Qle_antisym.
    - apply Qle_trans with (rnd binary32 100); [|qcompute].
      apply rnd_mono; [apply prec32|]. rewrite R. apply Qle_refl.
    - apply Qle_trans with (rnd binary32 100); [qcompute|].
      apply rnd_mono; [apply prec32|]. rewrite R. apply Qle_refl. }
  rewrite (fl_bounded binary32 (r * 100) (100 * B63)) by (try rewrite S; lra).
  eauto.
Qed.

Lemma percent_zero t :
  (0 < t)%Z -> (t < 2 ^ 63)%Z -> exists q, percent 0 t = Some q /\ q == 0.
Proof.
  intros H1 H2.
  destruct (percent_pos_mono 0 0 t) as (q & _ & E & _ & P & _); try lia.
  exists q. split; [assumption|].
  apply Qle_antisym; [|assumption].
  revert E. unfold percent. rewrite (f32_of_Z_finite t) by lia.
  change (f_of_Z binary32 0) with (Some 0).
  set (b := rnd binary32 (inject_Z t)).
  unfold f_div. destruct (Qeq_bool b 0); [discriminate|].
  assert (Z0 : rnd binary32 (0 / b) = 0) by (apply rnd_zero; unfold Qdiv; ring).
  unfold fl at 1. rewrite Z0.
  change (Qle_bool (pow2 (emax binary32)) (Qabs 0)) with false. cbv iota.
  unfold f_mul, fl. rewrite (rnd_zero binary32 (0 * 100)) by ring.
  change (Qle_bool (pow2 (emax binary32)) (Qabs 0)) with false.
  intros [= <-]. apply Qle_refl.
Qed.

Close Scope Q_scope.

(** ** The read loop, turn by turn *)

(** One turn of the read loop, by cases on the read. *)
Ltac loop_turn IH file out c rest :=
  unfold onChunk;
  destruct (0 <? Z.of_nat (length (ck_data c))) eqn:En;
  [ apply Z.ltb_lt in En;
    destruct (fs_write out (ck_data c) _) as [w' [nw ew]] eqn:Ew;
    destruct (f_geb _ _) eqn:Eg
  | apply Z.ltb_ge in En ];
  (match goal with |- context [readLoop file out rest ?s1] =>
     specialize (IH s1);
     destruct (readLoop file out rest s1) as [[s2 evs2] ex] end);
  (let e := fresh "e" in
   destruct (ck_err c) as [e|]; [destruct (decide (e = EOF))|]);
  simpl in *.

Lemma read_bytes_nonneg body : 0 <= read_bytes body.
Proof.
  induction body as [|c rest IH]; simpl; [lia|]. destruct (ck_err c); lia.
Qed.

Lemma length_append (a b : string) :
  String.length (a +:+ b) = (String.length a + String.length b)%nat.
Proof. induction a as [|c a IH]; simpl; [reflexivity|]. rewrite IH. reflexivity. Qed.

Lemma written_app a b : written (a ++ b) = written a + written b.
Proof.
  induction a as [|e a IH]; simpl; [reflexivity|].
  destruct e; simpl; rewrite ?IH; lia.
Qed.

Lemma writes_app a b : writes (a ++ b) = writes a ++ writes b.
Proof. unfold writes. apply flat_map_app. Qed.

Lemma bar_at_Some p i b :
  bar_at p i = Some b -> 0 <= i /\ (Z.to_nat i < length (bars p))%nat.
Proof.
  unfold bar_at. destruct (Z.ltb_spec i 0); [discriminate|].
  intros Hl. split; [assumption|]. eapply lookup_lt_Some. exact Hl.
Qed.

Section More.
Context {world : Type} `{!OS world}.

Lemma readLoop_exit_kind file out body : forall (s : lstate),
  (readLoop file out body s).2 =
  match read_error body with Some _ => Returned | None => Break end.
Proof.
  induction body as [|c rest IH]; intros s; simpl; [reflexivity|].
  loop_turn IH file out c rest; auto.
Qed.

Lemma readLoop_bar_fields fname out body : forall (s : lstate),
  let b' := ls_bar (readLoop fname out body s).1.1 in
  total b' = total (ls_bar s) /\ order b' = order (ls_bar s) /\
  file b' = file (ls_bar s).
Proof.
  induction body as [|c rest IH]; intros s; simpl; [auto|].
  loop_turn IH fname out c rest; auto.
Qed.

Lemma readLoop_no_panic file out body : forall (s : lstate),
  existsb is_Panicked (readLoop file out body s).1.2 = false.
Proof.
  induction body as [|c rest IH]; intros s; simpl; [reflexivity|].
  loop_turn IH file out c rest; auto.
Qed.

Lemma readLoop_last file out body e : forall (s : lstate),
  read_error body = Some e ->
  last (readLoop file out body s).1.2 =
  Some (Stdout ("Error writing file: " +:+ file +:+ " " +:+ error_string e)).
Proof.
  induction body as [|c rest IH]; intros s; simpl; [discriminate|].
  loop_turn IH file out c rest; intros He; try discriminate;
    try (injection He as <-; reflexivity);
    rewrite ?last_cons, (IH He); reflexivity.
Qed.

Lemma readLoop_current file out body : forall (s : lstate),
  0 <= current (ls_bar s) ->
  current (ls_bar s) + read_bytes body < 2 ^ 63 ->
  current (ls_bar (readLoop file out body s).1.1) =
  current (ls_bar s) + read_bytes body.
Proof.
  induction body as [|c rest IH]; intros s; simpl; [intros; lia|].
  pose proof (read_bytes_nonneg rest) as Hr.
  loop_turn IH file out c rest; intros H0 Hb;
    rewrite ?IH; rewrite ?wrap64_small; lia.
Qed.

Lemma readLoop_written file out body : forall (s : lstate),
  write_contract ->
  written (readLoop file out body s).1.2 <= read_bytes body /\
  (Forall (fun r => r.2 = None) (writes (readLoop file out body s).1.2) ->
   written (readLoop file out body s).1.2 = read_bytes body).
Proof.
  intros s C. revert s.
  induction body as [|c rest IH]; intros s; simpl; [split; [lia|reflexivity]|].
  pose proof (read_bytes_nonneg rest) as Hr.
  pose proof (C out (ck_data c) (ls_world s)) as [C1 C2].
  loop_turn IH file out c rest; try rewrite Ew in *; simpl in *;
    destruct IH as [I1 I2];
    (split;
     [ lia
     | intros HF;
       try (inversion HF as [|? ? Hh HF']; subst; simpl in *;
            specialize (C2 Hh); try specialize (I2 HF'));
       try specialize (I2 HF); lia ]).
Qed.

(** The bars after a task. *)
Lemma downloadFile_bars net p directory fname ord (w : world) :
  let p' := (downloadFile net p directory fname ord w).1.2 in
  length (bars p') = length (bars p) /\
  maxNameWidth p' = maxNameWidth p /\
  (forall i, i <> ord - 1 -> bar_at p' i = bar_at p i) /\
  (forall b', bar_at p' (ord - 1) = Some b' ->
     exists b, bar_at p (ord - 1) = Some b /\
               order b' = order b /\ file b' = file b).
Proof.
  unfold downloadFile.
  destruct (os_Create _ w) as [w1 [out|e]]; simpl; [|eauto 10].
  destruct (fetch_get _) as [resp|e]; simpl; [|eauto 10].
  destruct (bar_at p (ord - 1)) as [b|] eqn:Hb; simpl;
    [|repeat split; auto; intros b' Hb'; congruence].
  match goal with |- context [readLoop fname out ?body ?s0] =>
    pose proof (readLoop_bar_fields fname out body s0) as (F1 & F2 & F3);
    destruct (readLoop fname out body s0) as [[s evs] ex] end.
  simpl in *. destruct (bar_at_Some _ _ _ Hb) as [H0 Hl].
  repeat split.
  - apply length_insert.
  - intros i Hi. unfold bar_at. simpl.
    destruct (Z.ltb_spec i 0); [reflexivity|].
    apply list_lookup_insert_ne. lia.
  - intros b'. unfold bar_at at 1. simpl.
    replace (ord - 1 <? 0) with false by (symmetry; apply Z.ltb_ge; lia).
    rewrite list_lookup_insert_eq by assumption.
    intros [= <-]. exists b. auto.
Qed.

(** X7. [downloadFile] touches one progress bar only: the window keeps its
    number of bars and its name width, every bar but [bars[ord-1]] stays as
    it was, and that one keeps its [order] and [file]. *)
Theorem downloadFile_frame net p directory fname ord (w : world) :
  let p' := (downloadFile net p directory fname ord w).1.2 in
  length (bars p') = length (bars p) /\
  maxNameWidth p' = maxNameWidth p /\
  (forall i, i <> ord - 1 -> bar_at p' i = bar_at p i) /\
  (forall b', bar_at p' (ord - 1) = Some b' ->
     exists b, bar_at p (ord - 1) = Some b /\
               order b' = order b /\ file b' = file b).
Proof. apply downloadFile_bars. Qed.

(** X8. A task whose file is created, whose GET succeeds and whose bar
    exists sends on [done] exactly when its body is read to the end without
    an error, and that send is the last thing it does; when a read fails,
    it sends nothing and the last thing it does is to print
    "Error writing file:" with the read error.  It never panics. *)
Theorem downloadFile_signals
    net p directory file order (w w1 : world) resp b :
  fs_create (directory +:+ "/" +:+ file) w = (w1, None) ->
  fetch_get (net (patchSource +:+ file)) = Ok resp ->
  bar_at p (order - 1) = Some b ->
  let evs := (downloadFile net p directory file order w).2 in
  sent evs = match read_error (Body resp) with None => 1%nat | Some _ => 0%nat end /\
  last evs =
    Some match read_error (Body resp) with
         | None => DoneSend
         | Some e => Stdout ("Error writing file: " +:+ file +:+ " "
                               +:+ error_string e)
         end /\
  existsb is_Panicked evs = false.
Proof.
  intros Hcr Hget Hbar. unfold downloadFile, os_Create. rewrite Hcr, Hget, Hbar.
  match goal with |- context [readLoop file ?out ?body ?s0] =>
    pose proof (readLoop_exit_kind file out body s0) as K;
    pose proof (readLoop_sent file out body s0) as S;
    pose proof (readLoop_no_panic file out body s0) as N;
    pose proof (fun e => readLoop_last file out body e s0) as L;
    destruct (readLoop file out body s0) as [[s evs] ex] end.
  simpl in *. subst ex. rewrite sent_app, S, existsb_app, N.
  destruct (read_error (Body resp)) as [e|].
  - rewrite app_nil_r. rewrite (L e eq_refl). repeat split; reflexivity.
  - rewrite last_snoc. repeat split; reflexivity.
Qed.

(** X9. When the task ends, its bar holds the declared length in [total]
    and, in [current], the count it started with plus the number of bytes
    read from the body (up to the read that ended the loop), whatever the
    [Write] calls returned; this as long as the [int64] counter does not
    overflow. *)
Theorem downloadFile_counts_reads
    net p directory fname ord (w w1 : world) resp b :
  fs_create (directory +:+ "/" +:+ fname) w = (w1, None) ->
  fetch_get (net (patchSource +:+ fname)) = Ok resp ->
  bar_at p (ord - 1) = Some b ->
  0 <= current b -> current b + read_bytes (Body resp) < 2 ^ 63 ->
  bar_at (downloadFile net p directory fname ord w).1.2 (ord - 1) =
  Some {| order := order b;
          total := ContentLength resp;
          current := current b + read_bytes (Body resp);
          file := file b |}.
Proof.
  intros Hcr Hget Hbar H0 Hn. unfold downloadFile, os_Create.
  rewrite Hcr, Hget, Hbar.
  match goal with |- context [readLoop fname ?out ?body ?s0] =>
    pose proof (readLoop_bar_fields fname out body s0) as (F1 & F2 & F3);
    pose proof (readLoop_current fname out body s0) as C;
    destruct (readLoop fname out body s0) as [[s evs] ex] end.
  simpl in *. specialize (C H0 Hn).
  destruct (bar_at_Some _ _ _ Hbar) as [Hi Hl].
  unfold bar_at. simpl.
  replace (ord - 1 <? 0) with false by (symmetry; apply Z.ltb_ge; lia).
  rewrite list_lookup_insert_eq by assumption.
  destruct (ls_bar s) as [o t c f]. simpl in *. subst. reflexivity.
Qed.

(** X10. When [Write] keeps to its contract, the file never receives more
    bytes than were read from the body, and it receives exactly as many
    when no [Write] returns an error. *)
Theorem downloadFile_written
    net p directory file order (w w1 : world) resp b :
  write_contract ->
  fs_create (directory +:+ "/" +:+ file) w = (w1, None) ->
  fetch_get (net (patchSource +:+ file)) = Ok resp ->
  bar_at p (order - 1) = Some b ->
  let evs := (downloadFile net p directory file order w).2 in
  written evs <= read_bytes (Body resp) /\
  (Forall (fun r => r.2 = None) (writes evs) ->
   written evs = read_bytes (Body resp)).
Proof.
  intros C Hcr Hget Hbar. unfold downloadFile, os_Create. rewrite Hcr, Hget, Hbar.
  match goal with |- context [readLoop file ?out ?body ?s0] =>
    pose proof (readLoop_written file out body s0 C) as [W1 W2];
    destruct (readLoop file out body s0) as [[s evs] ex] end.
  simpl in *. rewrite written_app, writes_app.
  replace (written match ex with Break => [DoneSend] | Returned => [] end)
    with 0 by (destruct ex; reflexivity).
  replace (writes match ex with Break => [DoneSend] | Returned => [] end)
    with (@nil (nat * option error)) by (destruct ex; reflexivity).
  rewrite app_nil_r. split; [lia|]. intros HF. rewrite (W2 HF). lia.
Qed.
Lemma readLoop_sample_points file out body : forall (s : lstate),
  map (fun x => x.1.1) (samples (readLoop file out body s).1.2) =
  sample_points (lastTime s) body.
Proof.
  induction body as [|c rest IH]; intros s; simpl; [reflexivity|].
  unfold onChunk.
  rewrite <- (gate_iff _ (time_Sub_int64 (ck_now c) (lastTime s))).
  destruct (0 <? Z.of_nat (length (ck_data c))) eqn:En; simpl.
  - destruct (fs_write out (ck_data c) _) as [w' [nw ew]].
    destruct (f_geb _ _) eqn:Eg;
      (match goal with |- context [readLoop file out rest ?s1] =>
         specialize (IH s1);
         destruct (readLoop file out rest s1) as [[s2 evs2] ex] end;
       destruct (ck_err c) as [e|]; [destruct (decide (e = EOF))|]; simpl in *;
       rewrite ?samples_app; simpl; rewrite ?IH; reflexivity).
  - specialize (IH s). destruct (readLoop file out rest s) as [[s2 evs2] ex].
    destruct (ck_err c) as [e|]; [destruct (decide (e = EOF))|]; simpl in *;
      rewrite ?IH; reflexivity.
Qed.

Lemma readLoop_speeds file out body : forall (s : lstate),
  0 <= lastBytes s -> lastBytes s <= current (ls_bar s) ->
  current (ls_bar s) + read_bytes body < 2 ^ 63 ->
  speeds_bounded (lastBytes s) (samples (readLoop file out body s).1.2).
Proof.
  induction body as [|c rest IH]; intros s; simpl; [intros; exact I|].
  pose proof (read_bytes_nonneg rest) as Hr.
  unfold onChunk.
  destruct (0 <? Z.of_nat (length (ck_data c))) eqn:En.
  - apply Z.ltb_lt in En.
    destruct (fs_write out (ck_data c) _) as [w' [nw ew]].
    destruct (f_geb _ _) eqn:Eg.
    + apply gate_open in Eg. intros H0 H1 H2.
      assert (Hb : exists q x,
                 speed_since (lastTime s) (lastBytes s) (ck_now c)
                   (wrap64 (current (ls_bar s) + Z.of_nat (length (ck_data c))))
                 = Some q /\
                 f_of_Z binary64
                   (wrap64 (current (ls_bar s) + Z.of_nat (length (ck_data c)))
                    - lastBytes s) = Some x /\ (0 < q)%Q /\ (q <= x)%Q).
      { rewrite wrap64_small by (destruct (ck_err c); lia).
        apply speed_since_bounds; try lia. destruct (ck_err c); lia. }
      match goal with |- context [readLoop file out rest ?s1] =>
        specialize (IH s1);
        destruct (readLoop file out rest s1) as [[s2 evs2] ex] end.
      destruct (ck_err c) as [e|]; [destruct (decide (e = EOF))|]; simpl in *;
        rewrite ?samples_app; simpl; (split; [exact Hb|]); try exact I.
      apply IH; rewrite ?wrap64_small; lia.
    + intros H0 H1 H2.
      match goal with |- context [readLoop file out rest ?s1] =>
        specialize (IH s1);
        destruct (readLoop file out rest s1) as [[s2 evs2] ex] end.
      destruct (ck_err c) as [e|]; [destruct (decide (e = EOF))|]; simpl in *;
        rewrite ?samples_app; simpl; try exact I.
      apply IH; rewrite ?wrap64_small; lia.
  - apply Z.ltb_ge in En. intros H0 H1 H2.
    specialize (IH s). destruct (readLoop file out rest s) as [[s2 evs2] ex].
    destruct (ck_err c) as [e|]; [destruct (decide (e = EOF))|]; simpl in *;
      try exact I.
    apply IH; lia.
Qed.

(** X11. A speed sample is emitted exactly at the non-empty reads that
    come a second or more (by [time.Sub]) after the previous sample, or
    after the start for the first one: the [float64] test [elapsed >= 1]
    decides as the comparison of the duration with one second does. *)
Theorem samples_when_due
    net p directory file order (w w1 : world) resp b :
  fs_create (directory +:+ "/" +:+ file) w = (w1, None) ->
  fetch_get (net (patchSource +:+ file)) = Ok resp ->
  bar_at p (order - 1) = Some b ->
  map (fun x => x.1.1) (samples (downloadFile net p directory file order w).2) =
  sample_points (fetch_start (net (patchSource +:+ file))) (Body resp).
Proof.
  intros Hcr Hget Hbar. unfold downloadFile, os_Create. rewrite Hcr, Hget, Hbar.
  match goal with |- context [readLoop file ?out ?body ?s0] =>
    pose proof (readLoop_sample_points file out body s0) as H;
    destruct (readLoop file out body s0) as [[s evs] ex] end.
  simpl in *. rewrite samples_app.
  replace (samples match ex with Break => [DoneSend] | Returned => [] end)
    with (@nil (Z * Z * float)) by (destruct ex; reflexivity).
  rewrite app_nil_r. exact H.
Qed.

(** X12. As long as the [int64] counter does not overflow, every speed
    shown is a finite positive number, and at most the number of bytes
    counted since the previous sample. *)
Theorem speeds_finite_positive
    net p directory file order (w : world) resp b :
  fetch_get (net (patchSource +:+ file)) = Ok resp ->
  bar_at p (order - 1) = Some b ->
  0 <= current b -> current b + read_bytes (Body resp) < 2 ^ 63 ->
  speeds_bounded 0 (samples (downloadFile net p directory file order w).2).
Proof.
  intros Hget Hbar H0 Hn. unfold downloadFile.
  destruct (os_Create _ w) as [w1 [out|e]]; [|exact I].
  rewrite Hget, Hbar.
  match goal with |- context [readLoop file ?out ?body ?s0] =>
    pose proof (readLoop_speeds file out body s0) as H;
    destruct (readLoop file out body s0) as [[s evs] ex] end.
  simpl in *. rewrite samples_app.
  replace (samples match ex with Break => [DoneSend] | Returned => [] end)
    with (@nil (Z * Z * float)) by (destruct ex; reflexivity).
  rewrite app_nil_r. apply H; lia.
Qed.
(** What [untarGz] does, by cases on the source. *)
Lemma untarGz_cases src dest (w : world) :
  untarGz src dest w =
  (w, [],
   match fs_open src w with
   | Some e => Return (Some e)
   | None =>
       if (String.length src <? 6)%nat
       then Panic "slice bounds out of range"
       else Return None
   end).
Proof.
  destruct (fs_open src w) as [e|] eqn:Ho.
  - unfold untarGz, os_Open. rewrite Ho. reflexivity.
  - destruct (Nat.ltb_spec (String.length src) 6).
    + apply untarGz_panics_short; assumption.
    + apply untarGz_skips_long; assumption.
Qed.

(** X1. [untarGz] never extracts: for every source, destination and
    file system it leaves the file system as it was and prints nothing; it
    returns the error of [os.Open], or panics when the path is shorter than
    six bytes, or returns [nil]. *)
Theorem untarGz_never_extracts src dest (w : world) :
  untarGz src dest w =
  (w, [],
   match fs_open src w with
   | Some e => Return (Some e)
   | None =>
       if (String.length src <? 6)%nat
       then Panic "slice bounds out of range"
       else Return None
   end).
Proof. apply untarGz_cases. Qed.

Lemma untarAll_inert directory fs (w : world) :
  Forall (fun f => (5 <= String.length f)%nat) fs ->
  untarAll directory fs w =
  (w, flat_map (untar_report directory w) fs, RunReturned).
Proof.
  induction 1 as [|f fs Hf _ IH]; simpl; [reflexivity|].
  rewrite untarGz_cases.
  assert (L : (String.length (directory +:+ "/" +:+ f) <? 6)%nat = false).
  { apply Nat.ltb_ge. rewrite !length_append. simpl. lia. }
  rewrite L, IH. unfold untar_report.
  destruct (fs_open _ w); reflexivity.
Qed.

(** X2. The extraction loop at the end of [run] changes nothing, for
    every directory: it never panics, it leaves the file system as the
    downloads left it, and prints one line per file, followed by the error
    for a file that cannot be opened. *)
Theorem run_extraction_inert directory (w : world) :
  untarAll directory files w =
  (w, flat_map (untar_report directory w) files, RunReturned).
Proof.
  apply untarAll_inert. unfold files. repeat constructor; simpl; lia.
Qed.

Lemma spawnAll_sent net directory fs : forall i p (w : world),
  (sent (spawnAll net directory fs i p w).2 <= length fs)%nat /\
  (forall file e, In file fs ->
     fetch_get (net (patchSource +:+ file)) = Err e ->
     (sent (spawnAll net directory fs i p w).2 < length fs)%nat).
Proof.
  induction fs as [|f fs IH]; intros i p w; simpl.
  - split; [unfold sent; simpl; lia|intros ? ? []].
  - pose proof (downloadFile_sent net p directory f (i + 1) w) as (D1 & D2 & _).
    destruct (downloadFile net p directory f (i + 1) w) as [[w1 p1] evs1].
    specialize (IH (i + 1) p1 w1). destruct IH as [I1 I2].
    destruct (spawnAll net directory fs (i + 1) p1 w1) as [[w2 p2] evs2].
    simpl in *. rewrite sent_app. split; [lia|].
    intros file e [<-|Hin] He.
    + rewrite (D2 e He). lia.
    + specialize (I2 file e Hin He). lia.
Qed.

(** X15. The extraction loop composes: when the entries [pre] are
    processed without an error, the loop over [pre ++ rest] does what the
    loop over [rest] does from the file system that [pre] left, and prints
    the messages of both in order. *)
Theorem untarLoop_app dest pre rest (w w1 : world) out1 :
  Forall (fun i => i <> TarErr EOF) pre ->
  untarLoop dest pre w = (w1, out1, None) ->
  untarLoop dest (pre ++ rest) w =
  (let '(w2, out2, err) := untarLoop dest rest w1 in (w2, out1 ++ out2, err)).
Proof.
  intros Hpre. revert w out1.
  induction Hpre as [|i pre Hi Hpre IH]; intros w out1 Hok.
  - simpl in Hok. injection Hok as <- <-. simpl.
    destruct (untarLoop dest rest w) as [[? ?] ?]. reflexivity.
  - destruct i as [e'|h body]; simpl in Hok |- *.
    + destruct (decide (e' = EOF)); [congruence|discriminate].
    + destruct (Ascii.eqb (Typeflag h) TypeDir).
      * destruct (os_MkdirAll _ w) as [w' [e'|]]; [discriminate|].
        apply IH. assumption.
      * destruct (Ascii.eqb (Typeflag h) TypeReg).
        -- destruct (os_Create _ w) as [w' [f|e']]; [|discriminate].
           destruct (io_Copy f body w') as [w'' [e'|]]; [discriminate|].
           apply IH. assumption.
        -- destruct (untarLoop dest pre w) as [[w' out'] err'] eqn:E.
           injection Hok as -> <- ->.
           rewrite (IH w out' E).
           destruct (untarLoop dest rest w1) as [[? ?] ?]. reflexivity.
Qed.

(** X16. An archive that holds only entries that are neither directories
    nor regular files is extracted without an error and without a change
    to the file system; one message is printed per entry. *)
Theorem untarLoop_unsupported_only dest items (w : world) :
  forallb unsupported items = true ->
  untarLoop dest items w = (w, flat_map item_msg items, None).
Proof.
  induction items as [|i items IH]; simpl; [reflexivity|].
  intros H. apply andb_true_iff in H as [Hi Hr].
  destruct i as [e|h body]; [discriminate|]. simpl in Hi.
  apply andb_true_iff in Hi as [H1 H2].
  apply negb_true_iff in H1, H2. rewrite H1, H2, (IH Hr). reflexivity.
Qed.
Lemma downloadFile_no_panic net p directory file order (w : world) b :
  bar_at p (order - 1) = Some b ->
  existsb is_Panicked (downloadFile net p directory file order w).2 = false.
Proof.
  intros Hbar. unfold downloadFile.
  destruct (os_Create _ w) as [w1 [out|e]]; [|reflexivity].
  destruct (fetch_get _) as [resp|e]; [|reflexivity].
  rewrite Hbar.
  match goal with |- context [readLoop file ?out ?body ?s0] =>
    pose proof (readLoop_no_panic file out body s0) as N;
    destruct (readLoop file out body s0) as [[s evs] ex] end.
  simpl in *. rewrite existsb_app, N. destruct ex; reflexivity.
Qed.

Lemma spawnAll_no_panic net directory fs : forall i p (w : world),
  0 <= i -> (Z.to_nat i + length fs <= length (bars p))%nat ->
  existsb is_Panicked (spawnAll net directory fs i p w).2 = false.
Proof.
  induction fs as [|f fs IH]; intros i p w Hi Hl; simpl; [reflexivity|].
  simpl in Hl.
  assert (Hb : exists b, bar_at p (i + 1 - 1) = Some b).
  { unfold bar_at.
    replace (i + 1 - 1 <? 0) with false by (symmetry; apply Z.ltb_ge; lia).
    apply lookup_lt_is_Some. lia. }
  destruct Hb as [b Hb].
  pose proof (downloadFile_no_panic net p directory f (i + 1) w b Hb) as N.
  pose proof (downloadFile_bars net p directory f (i + 1) w) as (L & _).
  destruct (downloadFile net p directory f (i + 1) w) as [[w1 p1] evs1].
  simpl in *.
  specialize (IH (i + 1) p1 w1 ltac:(lia) ltac:(lia)).
  destruct (spawnAll net directory fs (i + 1) p1 w1) as [[w2 p2] evs2].
  simpl in *. rewrite existsb_app, N, IH. reflexivity.
Qed.

Lemma untar_report_no_panic directory (w : world) fs :
  existsb is_Panicked (flat_map (untar_report directory w) fs) = false.
Proof.
  induction fs as [|f fs IH]; simpl; [reflexivity|].
  unfold untar_report at 1. destruct (fs_open _ w); simpl; assumption.
Qed.

(** X3. When the GET of one of the files fails, [run] never returns: it
    stays blocked in [<-done], whatever the other downloads do, and does not
    panic. *)
Theorem run_blocked_by_failed_get args net p (w : world) fname e :
  (length files <= length (bars p))%nat ->
  In fname files ->
  fetch_get (net (patchSource +:+ fname)) = Err e ->
  (run args net p w).2 = RunBlocked /\
  existsb is_Panicked (run args net p w).1.2 = false.
Proof.
  intros Hl Hin He. unfold run.
  set (directory := if (1 <? length args)%nat then nth 1 args "." else ".").
  destruct (spawnAll_sent net directory files 0 p w) as [_ S].
  specialize (S fname e Hin He).
  pose proof (spawnAll_no_panic net directory files 0 p w ltac:(lia) Hl) as N.
  destruct (spawnAll net directory files 0 p w) as [[w1 p1] evs].
  simpl in S, N |- *.
  replace (sent evs <? 3)%nat with true by (symmetry; apply Nat.ltb_lt; exact S).
  split; [reflexivity|exact N].
Qed.

(** X4. With a bar for every file, [run] does not panic; it returns when
    every task has sent on [done] and stays blocked otherwise, and in both
    cases the file system at the end is the one the downloads left. *)
Theorem run_outcome args net p (w : world) :
  (length files <= length (bars p))%nat ->
  let directory := if (1 <? length args)%nat then nth 1 args "." else "." in
  let '(w1, p1, evs1) := spawnAll net directory files 0 p w in
  run args net p w =
  (if (sent evs1 <? length files)%nat then (w1, p1, evs1, RunBlocked)
   else (w1, p1, evs1 ++ flat_map (untar_report directory w1) files,
         RunReturned)) /\
  existsb is_Panicked (run args net p w).1.2 = false.
Proof.
  intros Hl directory. unfold run. fold directory.
  pose proof (spawnAll_no_panic net directory files 0 p w ltac:(lia) Hl) as N.
  destruct (spawnAll net directory files 0 p w) as [[w1 p1] evs1].
  simpl in N.
  destruct (sent evs1 <? length files)%nat; [split; [reflexivity|exact N]|].
  rewrite untarAll_inert by (unfold files; repeat constructor; simpl; lia).
  split; [reflexivity|].
  cbn [fst snd]. rewrite existsb_app, N. apply untar_report_no_panic.
Qed.
End More.

(** The argument of [SetValue] for a counter within a positive length. *)
Lemma updateProgressBar_bounds c t :
  0 < t -> t < 2 ^ 63 -> 0 <= c -> c <= t ->
  exists v, updateProgressBar c t = Some v /\ 0 <= v <= 100 /\
            (c = t -> v = 100) /\ (c = 0 -> v = 0).
Proof.
  intros Ht1 Ht2 Hc1 Hc2.
  destruct (percent_pos_mono c t t) as (q1 & q2 & E1 & E2 & P & L); try lia.
  destruct (percent_full t Ht1 Ht2) as (q & E & Hq).
  assert (q2 = q) by congruence. subst q2.
  assert (T100 : Qtrunc q = 100) by (rewrite (Qtrunc_comp q 100 Hq); reflexivity).
  assert (T0 : 0 <= Qtrunc q1).
  { change 0 with (Qtrunc 0). apply Qtrunc_mono. assumption. }
  assert (T1 : Qtrunc q1 <= 100) by (rewrite <- T100; apply Qtrunc_mono; assumption).
  exists (Qtrunc q1). unfold updateProgressBar. rewrite E1. simpl.
  replace (in_int64 (Qtrunc q1)) with true.
  2:{ symmetry. unfold in_int64. apply andb_true_iff.
      split; [apply Z.leb_le|apply Z.ltb_lt]; lia. }
  repeat split; try assumption.
  - intros ->. assert (q1 = q) by congruence. subst. assumption.
  - intros ->. destruct (percent_zero t Ht1 Ht2) as (q0 & E0 & H0).
    assert (q1 = q0) by congruence. subst.
    rewrite (Qtrunc_comp q0 0 H0). reflexivity.
Qed.

(** X13. For a positive declared length and a counter between zero and
    that length, [updateProgressBar] passes to [SetValue] a value between 0
    and 100: 0 for nothing transferred and exactly 100 for everything. *)
Theorem updateProgressBar_range c t :
  0 < t -> t < 2 ^ 63 -> 0 <= c -> c <= t ->
  exists v, updateProgressBar c t = Some v /\ 0 <= v <= 100 /\
            (c = t -> v = 100) /\ (c = 0 -> v = 0).
Proof. apply updateProgressBar_bounds. Qed.

Lemma counters_read_bytes body : forall cur,
  0 <= cur -> cur + read_bytes body < 2 ^ 63 ->
  Forall (fun c => cur < c <= cur + read_bytes body) (counters cur body) /\
  (0 < read_bytes body ->
   last (counters cur body) = Some (cur + read_bytes body)).
Proof.
  induction body as [|c rest IH]; intros cur H0 Hb; simpl in *.
  - split; [constructor|lia].
  - pose proof (read_bytes_nonneg rest) as Hr.
    destruct (0 <? Z.of_nat (length (ck_data c))) eqn:En.
    + apply Z.ltb_lt in En.
      rewrite wrap64_small by (destruct (ck_err c); lia).
      destruct (ck_err c); simpl.
      * split; [repeat constructor; lia|]. intros _. f_equal. lia.
      * destruct (IH (cur + Z.of_nat (length (ck_data c)))) as [F L]; [lia..|].
        split.
        -- constructor; [lia|].
           eapply Forall_impl; [exact F|]. simpl. intros; lia.
        -- intros _. destruct (Z.eq_dec (read_bytes rest) 0) as [E|N].
           ++ rewrite E in *.
              destruct (counters _ rest) as [|x l] eqn:Ec; simpl;
                [f_equal; lia|].
              exfalso. inversion F; subst. lia.
           ++ rewrite last_cons, (L ltac:(lia)). f_equal. lia.
    + apply Z.ltb_ge in En. simpl.
      destruct (ck_err c); simpl.
      * split; [constructor|lia].
      * destruct (IH cur) as [F L]; [lia..|]. split.
        -- eapply Forall_impl; [exact F|]. simpl. intros; lia.
        -- intros Hp. rewrite (L ltac:(lia)). f_equal. lia.
Qed.

Section Completion.
Context {world : Type} `{!OS world}.

(** X17. When the body delivers no more bytes than the response declares,
    every value passed to [SetValue] during the task lies between 0 and
    100. *)
Theorem progress_within_range
    net p directory file order (w w1 : world) resp b :
  fs_create (directory +:+ "/" +:+ file) w = (w1, None) ->
  fetch_get (net (patchSource +:+ file)) = Ok resp ->
  bar_at p (order - 1) = Some b ->
  0 <= current b -> ContentLength resp < 2 ^ 63 ->
  current b + read_bytes (Body resp) <= ContentLength resp ->
  Forall (fun a => exists v, updateProgressBar a.1 a.2 = Some v /\ 0 <= v <= 100)
    (progress_calls (downloadFile net p directory file order w).2).
Proof.
  intros Hcr Hget Hbar H0 Ht Hn. unfold downloadFile, os_Create.
  rewrite Hcr, Hget, Hbar.
  match goal with |- context [readLoop file ?out ?body ?s0] =>
    pose proof (readLoop_progress_calls file out body s0) as H;
    destruct (readLoop file out body s0) as [[s evs] ex] end.
  simpl in *. rewrite progress_calls_app, H.
  replace (progress_calls match ex with Break => [DoneSend] | Returned => [] end)
    with (@nil (Z * Z)) by (destruct ex; reflexivity).
  rewrite app_nil_r. apply Forall_map.
  destruct (counters_read_bytes (Body resp) (current b) H0 ltac:(lia)) as [F _].
  eapply Forall_impl; [exact F|]. simpl. intros c Hc.
  destruct (updateProgressBar_bounds c (ContentLength resp)) as (v & E & R & _);
    try lia.
  eauto.
Qed.

(** X18. When the body delivers exactly the number of bytes that the
    response declares, the last update of the task passes 100 to
    [SetValue]. *)
Theorem complete_download_ends_at_100
    net p directory file order (w w1 : world) resp b :
  fs_create (directory +:+ "/" +:+ file) w = (w1, None) ->
  fetch_get (net (patchSource +:+ file)) = Ok resp ->
  bar_at p (order - 1) = Some b ->
  0 <= current b -> ContentLength resp < 2 ^ 63 ->
  0 < read_bytes (Body resp) ->
  current b + read_bytes (Body resp) = ContentLength resp ->
  last (progress_calls (downloadFile net p directory file order w).2) =
    Some (ContentLength resp, ContentLength resp) /\
  updateProgressBar (ContentLength resp) (ContentLength resp) = Some 100.
Proof.
  intros Hcr Hget Hbar H0 Ht Hp Hn. unfold downloadFile, os_Create.
  rewrite Hcr, Hget, Hbar.
  match goal with |- context [readLoop file ?out ?body ?s0] =>
    pose proof (readLoop_progress_calls file out body s0) as H;
    destruct (readLoop file out body s0) as [[s evs] ex] end.
  simpl in *. rewrite progress_calls_app, H.
  replace (progress_calls match ex with Break => [DoneSend] | Returned => [] end)
    with (@nil (Z * Z)) by (destruct ex; reflexivity).
  rewrite app_nil_r.
  destruct (counters_read_bytes (Body resp) (current b) H0 ltac:(lia)) as [_ L].
  split.
  - rewrite fmap_last, (L Hp). simpl. rewrite Hn. reflexivity.
  - destruct (updateProgressBar_bounds (ContentLength resp) (ContentLength resp))
      as (v & E & _ & V & _); try lia.
    rewrite E, (V eq_refl). reflexivity.
Qed.
End Completion.

(** ** Progress over a task *)

Section Monotone.
Context {world : Type} `{!OS world}.

(** Beyond the declared length the conversion to [int] can be undefined:
    a counter of [2^61] against a declared length of one byte gives a
    percentage above the largest [int64]. *)
Example conversion_undefined_beyond_length :
  updateProgressBar (2 ^ 61) 1 = None.
Proof. vm_compute. reflexivity. Qed.

(** C5, as amended. For a task whose declared content length is positive,
    and as long as the [int64] counter does not overflow, the percentage
    [float32(current) / float32(total) * 100] computed at each update is
    finite, not negative and never smaller than at an earlier update of the
    task. The values passed to [SetValue] are in the same order wherever the
    conversion of the percentage to [int] is defined, and when the body
    delivers no more bytes than the response declares the conversion is
    defined at every update, with a value between 0 and 100. *)
Theorem progress_monotone_known_total
    net p directory file order (w : world) resp b :
  fetch_get (net (patchSource +:+ file)) = Ok resp ->
  bar_at p (order - 1) = Some b ->
  0 < ContentLength resp -> ContentLength resp < 2 ^ 63 ->
  0 <= current b -> current b + body_bytes (Body resp) < 2 ^ 63 ->
  StronglySorted progress_le
    (progress_calls (downloadFile net p directory file order w).2) /\
  Forall (fun a => exists q, percent a.1 a.2 = Some q /\ (0 <= q)%Q)
    (progress_calls (downloadFile net p directory file order w).2) /\
  (current b + read_bytes (Body resp) <= ContentLength resp ->
   Forall (fun a => exists v, updateProgressBar a.1 a.2 = Some v /\ 0 <= v <= 100)
     (progress_calls (downloadFile net p directory file order w).2)).
Proof.
  intros Hget Hbar Ht1 Ht2 Hc0 Hb.
  destruct (progress_sorted_known_total net p directory file order w resp b)
    as [S P]; try assumption.
  split; [exact S|]. split; [exact P|].
  intros Hn. unfold downloadFile.
  destruct (os_Create _ w) as [w1 [out|e]]; [|constructor].
  rewrite Hget, Hbar.
  match goal with |- context [readLoop file out ?body ?s0] =>
    pose proof (readLoop_progress_calls file out body s0) as H;
    destruct (readLoop file out body s0) as [[s evs] ex] end.
  simpl in *. rewrite progress_calls_app, H.
  replace (progress_calls match ex with Break => [DoneSend] | Returned => [] end)
    with (@nil (Z * Z)) by (destruct ex; reflexivity).
  rewrite app_nil_r. apply Forall_map.
  destruct (counters_read_bytes (Body resp) (current b) Hc0 ltac:(lia)) as [F _].
  eapply Forall_impl; [exact F|]. simpl. intros c Hc.
  destruct (updateProgressBar_bounds c (ContentLength resp)) as (v & E & R & _);
    try lia.
  eauto.
Qed.
End Monotone.

(** X14. With a declared length of zero, the division is by zero: the
    percentage is an infinity or a NaN and the argument of [SetValue] is
    what the implementation makes of it, whatever the counter. *)
Theorem updateProgressBar_zero_total c : updateProgressBar c 0 = None.
Proof.
  unfold updateProgressBar, percent.
  change (f_of_Z binary32 0) with (Some 0%Q).
  destruct (f_of_Z binary32 c); reflexivity.
Qed.

(** ** The window before the downloads *)

Lemma maxWidth_fold fs : forall p,
  let p' :=
    fold_left
      (fun p file =>
         if maxNameWidth p <? Z.of_nat (String.length file)
         then {| bars := bars p; maxNameWidth := Z.of_nat (String.length file) |}
         else p) fs p in
  bars p' = bars p /\
  maxNameWidth p <= maxNameWidth p' /\
  Forall (fun f => Z.of_nat (String.length f) <= maxNameWidth p') fs /\
  (maxNameWidth p' = maxNameWidth p \/
   exists f, In f fs /\ maxNameWidth p' = Z.of_nat (String.length f)).
Proof.
  induction fs as [|f fs IH]; intros p; simpl.
  - repeat split; try lia; auto.
  - destruct (Z.ltb_spec (maxNameWidth p) (Z.of_nat (String.length f))) as [L|G].
    + match goal with |- context [fold_left _ fs ?p1] =>
        destruct (IH p1) as (I1 & I2 & I3 & I4) end.
      simpl in *. repeat split; try assumption; try lia.
      * constructor; [lia|assumption].
      * destruct I4 as [E|(f' & Hin & E)]; right; eauto.
    + destruct (IH p) as (I1 & I2 & I3 & I4).
      repeat split; try assumption.
      * constructor; [lia|assumption].
      * destruct I4 as [E|(f' & Hin & E)]; [left|right]; eauto.
Qed.

Lemma maxWidth_fold_fixed fs : forall p,
  Forall (fun f => Z.of_nat (String.length f) <= maxNameWidth p) fs ->
  fold_left
    (fun p file =>
       if maxNameWidth p <? Z.of_nat (String.length file)
       then {| bars := bars p; maxNameWidth := Z.of_nat (String.length file) |}
       else p) fs p = p.
Proof.
  induction fs as [|f fs IH]; intros p H; simpl; [reflexivity|].
  inversion H as [|? ? Hf Hr]; subst.
  replace (maxNameWidth p <? Z.of_nat (String.length f)) with false
    by (symmetry; apply Z.ltb_ge; assumption).
  apply IH. assumption.
Qed.

(** X6. [calculateMaxNameWidth] leaves the bars alone and sets the width
    to the largest of the previous width and the lengths of the file names;
    calling it again changes nothing. *)
Theorem calculateMaxNameWidth_max p :
  let p' := calculateMaxNameWidth p in
  bars p' = bars p /\
  maxNameWidth p <= maxNameWidth p' /\
  Forall (fun f => Z.of_nat (String.length f) <= maxNameWidth p') files /\
  (maxNameWidth p' = maxNameWidth p \/
   exists f, In f files /\ maxNameWidth p' = Z.of_nat (String.length f)) /\
  calculateMaxNameWidth p' = p'.
Proof.
  unfold calculateMaxNameWidth.
  destruct (maxWidth_fold files p) as (H1 & H2 & H3 & H4).
  repeat split; try assumption.
  apply maxWidth_fold_fixed. assumption.
Qed.

Lemma initBars_fold fs : forall p i,
  fold_left
    (fun '(p, i) file =>
       (set_bars p (bars p ++ [NewProgressBar (i + 1) file (maxNameWidth p)]),
        i + 1))
    fs (p, i) =
  (set_bars p (bars p ++
                 imap (fun k f => NewProgressBar (i + Z.of_nat k + 1) f
                                    (maxNameWidth p)) fs),
   i + Z.of_nat (length fs)).
Proof.
  induction fs as [|f fs IH]; intros p i; simpl.
  - rewrite app_nil_r, Z.add_0_r. destruct p; reflexivity.
  - rewrite IH. simpl. unfold set_bars at 1 2. simpl.
    rewrite <- app_assoc. simpl. f_equal; [|lia].
    unfold set_bars. f_equal. f_equal. rewrite Z.add_0_r. f_equal.
    apply imap_ext. intros k x _. simpl. f_equal. lia.
Qed.

(** X5. On a window without bars, [initProgressBars] makes one bar per
    file, in the order of [files]; the order [k+1] that [run] hands to the
    task of the [k]-th file is the index plus one of the bar of that file,
    which starts with both counters at zero.  The name width is kept. *)
Theorem initProgressBars_orders p k f :
  bars p = [] ->
  files !! k = Some f ->
  length (bars (initProgressBars p)) = length files /\
  maxNameWidth (initProgressBars p) = maxNameWidth p /\
  bar_at (initProgressBars p) ((Z.of_nat k + 1) - 1) =
    Some {| order := Z.of_nat k + 1; total := 0; current := 0; file := f |}.
Proof.
  intros Hb Hk. unfold initProgressBars. rewrite initBars_fold.
  cbn [fst]. unfold bar_at, set_bars. cbn [bars maxNameWidth].
  rewrite Hb, app_nil_l, length_imap. repeat split.
  replace (Z.of_nat k + 1 - 1 <? 0) with false by (symmetry; apply Z.ltb_ge; lia).
  replace (Z.to_nat (Z.of_nat k + 1 - 1)) with k by lia.
  rewrite list_lookup_imap, Hk. reflexivity.
Qed.

Lemma MemFS_write_contract : @write_contract MemFS.fs MemFS.os.
Proof.
  intros f data w. simpl. unfold MemFS.write.
  destruct (MemFS.nodes w !! MemFS.components (file_Name f)) as [[|old]|];
    simpl; try (split; [lia|discriminate]).
  split; [lia|].
  destruct (Nat.ltb_spec (length data `min` MemFS.free w) (length data));
    [discriminate|]. intros _. lia.
Qed.

(** ** Instances of the further properties *)

(** X3 at the run in which the GET of [info.txt] fails. *)
Lemma run_blocked_by_failed_get_witness :
  (run ["araxiapatch"; "D"] net_flaky window0 disk).2 = RunBlocked /\
  existsb is_Panicked (run ["araxiapatch"; "D"] net_flaky window0 disk).1.2
    = false.
Proof.
  apply (run_blocked_by_failed_get ["araxiapatch"; "D"] net_flaky window0 disk
           "info.txt" ErrNet).
  - vm_compute. lia.
  - left. reflexivity.
  - reflexivity.
Defined.

(** X4 at the run in which the three downloads succeed. *)
Lemma run_outcome_witness :
  let '(w1, p1, evs1) := spawnAll (net_all 11) "D" files 0 window0 disk in
  run ["araxiapatch"; "D"] (net_all 11) window0 disk =
  (if (sent evs1 <? length files)%nat then (w1, p1, evs1, RunBlocked)
   else (w1, p1, evs1 ++ flat_map (untar_report "D" w1) files, RunReturned)) /\
  existsb is_Panicked (run ["araxiapatch"; "D"] (net_all 11) window0 disk).1.2
    = false.
Proof.
  apply (run_outcome ["araxiapatch"; "D"] (net_all 11) window0 disk).
  vm_compute. lia.
Defined.

(** X5 at the second file. *)
Lemma initProgressBars_orders_witness :
  length (bars (initProgressBars {| bars := []; maxNameWidth := 20 |}))
    = length files /\
  maxNameWidth (initProgressBars {| bars := []; maxNameWidth := 20 |}) = 20 /\
  bar_at (initProgressBars {| bars := []; maxNameWidth := 20 |}) (2 - 1) =
    Some {| order := 2; total := 0; current := 0;
            file := "AraxiaPatchv1.tar.gz" |}.
Proof.
  apply (initProgressBars_orders {| bars := []; maxNameWidth := 20 |} 1
           "AraxiaPatchv1.tar.gz").
  - reflexivity.
  - reflexivity.
Defined.

(** X8 at a download whose second read fails. *)
Lemma downloadFile_signals_witness :
  let evs := (downloadFile net_reset window0 "D" "info.txt" 1 disk).2 in
  sent evs = 0%nat /\
  last evs =
    Some (Stdout "Error writing file: info.txt connection reset by peer") /\
  existsb is_Panicked evs = false.
Proof.
  apply (downloadFile_signals net_reset window0 "D" "info.txt" 1 disk
           (MemFS.create "D/info.txt" disk).1
           {| ContentLength := 11;
              Body := [{| ck_data := MemFS.bytes "hello"; ck_err := None;
                          ck_now := 100000000 |};
                       {| ck_data := []; ck_err := Some ErrNet;
                          ck_now := 200000000 |}] |}
           {| order := 1; total := 0; current := 0; file := "info.txt" |}).
  - vm_compute. reflexivity.
  - reflexivity.
  - reflexivity.
Defined.

(** X9 at a download of eleven bytes. *)
Lemma downloadFile_counts_reads_witness :
  bar_at (downloadFile (net_all 11) window0 "D" "info.txt" 1 disk).1.2 (1 - 1) =
  Some {| order := 1; total := 11; current := 0 + 11; file := "info.txt" |}.
Proof.
  apply (downloadFile_counts_reads (net_all 11) window0 "D" "info.txt" 1 disk
           (MemFS.create "D/info.txt" disk).1
           {| ContentLength := 11;
              Body := [{| ck_data := MemFS.bytes "hello"; ck_err := None;
                          ck_now := 1500000000 |};
                       {| ck_data := MemFS.bytes "world"; ck_err := None;
                          ck_now := 1600000000 |};
                       {| ck_data := MemFS.bytes "!"; ck_err := Some EOF;
                          ck_now := 2700000000 |}] |}
           {| order := 1; total := 0; current := 0; file := "info.txt" |}).
  - vm_compute. reflexivity.
  - reflexivity.
  - reflexivity.
  - simpl. lia.
  - vm_compute. reflexivity.
Defined.

(** X10 at the same download, on the in-memory file system. *)
Lemma downloadFile_written_witness :
  let evs := (downloadFile (net_all 11) window0 "D" "info.txt" 1 disk).2 in
  written evs <= 11 /\
  (Forall (fun r => r.2 = None) (writes evs) -> written evs = 11).
Proof.
  apply (downloadFile_written (net_all 11) window0 "D" "info.txt" 1 disk
           (MemFS.create "D/info.txt" disk).1
           {| ContentLength := 11;
              Body := [{| ck_data := MemFS.bytes "hello"; ck_err := None;
                          ck_now := 1500000000 |};
                       {| ck_data := MemFS.bytes "world"; ck_err := None;
                          ck_now := 1600000000 |};
                       {| ck_data := MemFS.bytes "!"; ck_err := Some EOF;
                          ck_now := 2700000000 |}] |}
           {| order := 1; total := 0; current := 0; file := "info.txt" |}).
  - exact MemFS_write_contract.
  - vm_compute. reflexivity.
  - reflexivity.
  - reflexivity.
Defined.

(** X11 at the same download: samples at 1.5 s and 2.7 s, none at 1.6 s. *)
Lemma samples_when_due_witness :
  map (fun x => x.1.1)
      (samples (downloadFile (net_all 11) window0 "D" "info.txt" 1 disk).2) =
  [1500000000; 2700000000].
Proof.
  apply (samples_when_due (net_all 11) window0 "D" "info.txt" 1 disk
           (MemFS.create "D/info.txt" disk).1
           {| ContentLength := 11;
              Body := [{| ck_data := MemFS.bytes "hello"; ck_err := None;
                          ck_now := 1500000000 |};
                       {| ck_data := MemFS.bytes "world"; ck_err := None;
                          ck_now := 1600000000 |};
                       {| ck_data := MemFS.bytes "!"; ck_err := Some EOF;
                          ck_now := 2700000000 |}] |}
           {| order := 1; total := 0; current := 0; file := "info.txt" |}).
  - vm_compute. reflexivity.
  - reflexivity.
  - reflexivity.
Defined.

(** X12 at the same download. *)
Lemma speeds_finite_positive_witness :
  speeds_bounded 0
    (samples (downloadFile (net_all 11) window0 "D" "info.txt" 1 disk).2).
Proof.
  apply (speeds_finite_positive (net_all 11) window0 "D" "info.txt" 1 disk
           {| ContentLength := 11;
              Body := [{| ck_data := MemFS.bytes "hello"; ck_err := None;
                          ck_now := 1500000000 |};
                       {| ck_data := MemFS.bytes "world"; ck_err := None;
                          ck_now := 1600000000 |};
                       {| ck_data := MemFS.bytes "!"; ck_err := Some EOF;
                          ck_now := 2700000000 |}] |}
           {| order := 1; total := 0; current := 0; file := "info.txt" |}).
  - reflexivity.
  - reflexivity.
  - simpl. lia.
  - vm_compute. reflexivity.
Defined.

(** X13 at 512 bytes of 1024. *)
Lemma updateProgressBar_range_witness :
  exists v, updateProgressBar 512 1024 = Some v /\ 0 <= v <= 100 /\
            (512 = 1024 -> v = 100) /\ (512 = 0 -> v = 0).
Proof.
  apply (updateProgressBar_range 512 1024); lia.
Defined.

(** X15 at an archive with a directory and a symbolic link, followed by a
    regular file. *)
Lemma untarLoop_app_witness :
  untarLoop "D"
    ([TarEntry {| Typeflag := TypeDir; Name := "a/" |} []; link_entry]
       ++ [TarEntry {| Typeflag := TypeReg; Name := "a/b.txt" |}
             [{| rd_data := MemFS.bytes "hello"; rd_err := None |}]])
    disk =
  (let '(w2, out2, err) :=
     untarLoop "D"
       [TarEntry {| Typeflag := TypeReg; Name := "a/b.txt" |}
          [{| rd_data := MemFS.bytes "hello"; rd_err := None |}]]
       (MemFS.mkdirall "D/a/" disk).1 in
   (w2, ["Unable to untar type : 2 in file a/link"] ++ out2, err)).
Proof.
  apply (untarLoop_app "D"
           [TarEntry {| Typeflag := TypeDir; Name := "a/" |} []; link_entry]
           [TarEntry {| Typeflag := TypeReg; Name := "a/b.txt" |}
              [{| rd_data := MemFS.bytes "hello"; rd_err := None |}]]
           disk (MemFS.mkdirall "D/a/" disk).1
           ["Unable to untar type : 2 in file a/link"]).
  - repeat constructor; discriminate.
  - vm_compute. reflexivity.
Defined.

(** X16 at an archive of two symbolic links. *)
Lemma untarLoop_unsupported_only_witness :
  untarLoop "D" [link_entry; link_entry] disk =
  (disk, flat_map item_msg [link_entry; link_entry], None).
Proof.
  apply (untarLoop_unsupported_only "D" [link_entry; link_entry] disk).
  reflexivity.
Defined.

(** X17 at a download of eleven bytes that declares eleven. *)
Lemma progress_within_range_witness :
  Forall (fun a => exists v, updateProgressBar a.1 a.2 = Some v /\ 0 <= v <= 100)
    (progress_calls (downloadFile (net_all 11) window0 "D" "info.txt" 1 disk).2).
Proof.
  apply (progress_within_range (net_all 11) window0 "D" "info.txt" 1 disk
           (MemFS.create "D/info.txt" disk).1
           {| ContentLength := 11;
              Body := [{| ck_data := MemFS.bytes "hello"; ck_err := None;
                          ck_now := 1500000000 |};
                       {| ck_data := MemFS.bytes "world"; ck_err := None;
                          ck_now := 1600000000 |};
                       {| ck_data := MemFS.bytes "!"; ck_err := Some EOF;
                          ck_now := 2700000000 |}] |}
           {| order := 1; total := 0; current := 0; file := "info.txt" |}).
  - vm_compute. reflexivity.
  - reflexivity.
  - reflexivity.
  - simpl. lia.
  - simpl. lia.
  - vm_compute. discriminate.
Defined.

(** X18 at the same download. *)
Lemma complete_download_ends_at_100_witness :
  last (progress_calls
          (downloadFile (net_all 11) window0 "D" "info.txt" 1 disk).2) =
    Some (11, 11) /\
  updateProgressBar 11 11 = Some 100.
Proof.
  apply (complete_download_ends_at_100
           (net_all 11) window0 "D" "info.txt" 1 disk
           (MemFS.create "D/info.txt" disk).1
           {| ContentLength := 11;
              Body := [{| ck_data := MemFS.bytes "hello"; ck_err := None;
                          ck_now := 1500000000 |};
                       {| ck_data := MemFS.bytes "world"; ck_err := None;
                          ck_now := 1600000000 |};
                       {| ck_data := MemFS.bytes "!"; ck_err := Some EOF;
                          ck_now := 2700000000 |}] |}
           {| order := 1; total := 0; current := 0; file := "info.txt" |}).
  - vm_compute. reflexivity.
  - reflexivity.
  - reflexivity.
  - simpl. lia.
  - simpl. lia.
  - vm_compute. reflexivity.
  - vm_compute. reflexivity.
Defined.

(** C5 at a download of eleven bytes that declares eleven: the updates are
    in order, the percentages finite, and every value passed to [SetValue]
    is defined and between 0 and 100. *)
Lemma progress_monotone_known_total_witness :
  StronglySorted progress_le
    (progress_calls (downloadFile (net_all 11) window0 "D" "info.txt" 1 disk).2)
  /\ Forall (fun a => exists q, percent a.1 a.2 = Some q /\ (0 <= q)%Q)
       (progress_calls
          (downloadFile (net_all 11) window0 "D" "info.txt" 1 disk).2)
  /\ Forall (fun a => exists v, updateProgressBar a.1 a.2 = Some v /\ 0 <= v <= 100)
       (progress_calls
          (downloadFile (net_all 11) window0 "D" "info.txt" 1 disk).2).
Proof.
  destruct (progress_monotone_known_total
              (net_all 11) window0 "D" "info.txt" 1 disk
              {| ContentLength := 11;
                 Body := [{| ck_data := MemFS.bytes "hello"; ck_err := None;
                             ck_now := 1500000000 |};
                          {| ck_data := MemFS.bytes "world"; ck_err := None;
                             ck_now := 1600000000 |};
                          {| ck_data := MemFS.bytes "!"; ck_err := Some EOF;
                             ck_now := 2700000000 |}] |}
              {| order := 1; total := 0; current := 0; file := "info.txt" |})
    as (S & P & V).
  - reflexivity.
  - reflexivity.
  - reflexivity.
  - reflexivity.
  - simpl. lia.
  - vm_compute. reflexivity.
  - split; [exact S|]. split; [exact P|]. apply V. vm_compute. discriminate.
Defined.
